(** * smallsh: command execution and job control

    A shallow embedding of [main.c]: the variable expander, the line
    parser, the job table with its reap pass, the [exit] built-in, the
    launcher (child and parent side of [fork]) and the dispatch of one
    iteration of the prompt loop, followed by the properties of each.

    Conventions.
    - A C string is the Rocq [string] of the characters before its
      terminator.
    - Standard output is the text written so far; [printf] followed by
      [fflush] appends to it.
    - [pid_t] and [int] values are in [Z].
    - Behaviour the C standard leaves undefined (a write past the end of
      an array, [strlen] of a null pointer) is the result [Fault]. *)

From Stdlib Require Import ZArith String Ascii List Bool Lia DecimalString.
From stdpp Require Import base decidable list.
Import ListNotations.

Open Scope Z_scope.

(** ** Results of code that can leave defined behaviour *)

Inductive fault : Type :=
  | BufferOverrun   (* a write or read past the end of an array *)
  | NullDeref.      (* a null pointer handed to [strlen] *)

Inductive result (A : Type) : Type :=
  | Ok (a : A)
  | Fault (f : fault).
Arguments Ok {A} a.
Arguments Fault {A} f.

#[global] Instance result_bind : MBind result :=
  fun A B (k : A -> result B) (r : result A) =>
    match r with
    | Ok a => k a
    | Fault f => Fault f
    end.

(** [printf] of an [int] with the conversion [%d]. *)
Definition fmt_d (n : Z) : string := NilZero.string_of_int (Z.to_int n).

(** [printf] of a [char *] with the conversion [%s]; glibc prints a null
    pointer as the text (null). *)
Definition fmt_s (s : option string) : string :=
  match s with
  | Some s => s
  | None => "(null)"
  end.

Definition cat (ss : list string) : string :=
  fold_right String.append EmptyString ss.

Definition nl : string := String "010"%char EmptyString.

(** ** Variable expander ([expandVariable]) *)

(** [sizeof(snprintf(...))] is [sizeof(int)], so [pidString] has
    [sizeof(int) + 1] bytes. *)
Definition sizeof_int : nat := 4.
Definition pidString_size : nat := sizeof_int + 1.

(** [sprintf(pidString, "%d", getpid())]: the digits and the terminator
    are written into [pidString]. *)
Definition sprintf_pidString (pid : Z) : result string :=
  let s := fmt_d pid in
  if (String.length s + 1 <=? pidString_size)%nat then Ok s
  else Fault BufferOverrun.

Definition dollar : ascii := "$"%char.

(** The first loop: [count] after the scan.  [strstr(&input[i], "$$") ==
    &input[i]] holds when the text at [i] starts with the marker; the
    index then skips both marker characters. *)
Fixpoint countMarkers (input : string) : nat :=
  match input with
  | EmptyString => O
  | String c rest =>
      if Ascii.eqb c dollar then
        match rest with
        | String c' rest' =>
            if Ascii.eqb c' dollar then S (countMarkers rest')
            else countMarkers rest
        | EmptyString => countMarkers rest
        end
      else countMarkers rest
  end.

(** The second loop: the text written to [result]. *)
Fixpoint replaceMarkers (pidString input : string) : string :=
  match input with
  | EmptyString => EmptyString
  | String c rest =>
      if Ascii.eqb c dollar then
        match rest with
        | String c' rest' =>
            if Ascii.eqb c' dollar
            then String.append pidString (replaceMarkers pidString rest')
            else String c (replaceMarkers pidString rest)
        | EmptyString => String c (replaceMarkers pidString rest)
        end
      else String c (replaceMarkers pidString rest)
  end.

(** The argument of [malloc]: [i + count * (pidLength - varLength) + 1],
    where [i] is the length of the input after the first loop. *)
Definition result_size (pidString input : string) : Z :=
  Z.of_nat (String.length input)
  + Z.of_nat (countMarkers input) * (Z.of_nat (String.length pidString) - 2)
  + 1.

Definition expandVariable (pid : Z) (input : string) : result string :=
  pidString ← sprintf_pidString pid;
  Ok (replaceMarkers pidString input).

(** The expansion as the specification words it: the text is cut at each
    marker found from the left, and the pieces are joined by the decimal
    text of the process identifier. *)
Fixpoint split_at_markers (piece input : string) : list string :=
  match input with
  | EmptyString => [piece]
  | String c rest =>
      match rest with
      | String c' rest' =>
          if Ascii.eqb c dollar && Ascii.eqb c' dollar
          then piece :: split_at_markers EmptyString rest'
          else split_at_markers (String.append piece (String c EmptyString)) rest
      | EmptyString => [String.append piece (String c EmptyString)]
      end
  end.

Fixpoint join (sep : string) (pieces : list string) : string :=
  match pieces with
  | [] => EmptyString
  | [p] => p
  | p :: ps => String.append p (String.append sep (join sep ps))
  end.

Definition spec_expand (pidText input : string) : string :=
  join pidText (split_at_markers EmptyString input).

(** An occurrence of the marker, as a proposition on the text. *)
Definition has_marker (input : string) : Prop :=
  exists pre post : string,
    input = String.append pre (String dollar (String dollar post)).

(** ** Line parser ([parseInput]) *)

(** [struct commandStruct].  [args] holds the entries before the null
    pointer that ends the vector.  [parseInput] takes the record from
    [malloc] and assigns [iRedirect] and [oRedirect] only when the line
    has [<] and [>]; the launcher tests them against the null pointer all
    the same.  Here the two fields start as null pointers: this is what
    the code relies on, not what [malloc] promises. *)
Record commandStruct : Type := mkCommand {
  command : string;
  args : list string;
  iRedirect : option string;
  oRedirect : option string;
  background : bool
}.

Definition args_size : nat := 514.

(** The delimiters handed to [strtok_r]: space and newline. *)
Definition is_delim (c : ascii) : bool :=
  Ascii.eqb c " "%char || Ascii.eqb c "010"%char.

Fixpoint skip_delims (s : string) : string :=
  match s with
  | EmptyString => EmptyString
  | String c rest => if is_delim c then skip_delims rest else s
  end.

(** The token at the head of a text that starts with no delimiter, and
    the text after the delimiter that ends it. *)
Fixpoint take_token (s : string) : string * string :=
  match s with
  | EmptyString => (EmptyString, EmptyString)
  | String c rest =>
      if is_delim c then (EmptyString, rest)
      else let '(tok, after) := take_token rest in (String c tok, after)
  end.

(** One call of [strtok_r] on the text still to scan: the next token and
    the text that stays in [saveptr], or the null pointer. *)
Definition strtok_r (s : string) : option (string * string) :=
  match skip_delims s with
  | EmptyString => None
  | s' => Some (take_token s')
  end.

(** All the tokens that the successive calls of [strtok_r] return; [cur]
    is the token being read. *)
Fixpoint tokens_from (cur : string) (s : string) : list string :=
  match s with
  | EmptyString =>
      match cur with EmptyString => [] | _ => [cur] end
  | String c rest =>
      if is_delim c then
        match cur with
        | EmptyString => tokens_from EmptyString rest
        | _ => cur :: tokens_from EmptyString rest
        end
      else tokens_from (String.append cur (String c EmptyString)) rest
  end.

Definition tokens (s : string) : list string := tokens_from EmptyString s.

Definition is_special (token : string) : bool :=
  String.eqb token "<" || String.eqb token ">" || String.eqb token "&".

(** The [while] loop that fills [args]: the arguments, and the tokens from
    the first of [<], [>], [&] on. *)
Fixpoint collect_args (toks : list string) : list string * list string :=
  match toks with
  | [] => ([], [])
  | token :: rest =>
      if is_special token then ([], toks)
      else let '(found, remaining) := collect_args rest in
           (token :: found, remaining)
  end.

Definition set_iRedirect (c : commandStruct) (path : string) : commandStruct :=
  mkCommand (command c) (args c) (Some path) (oRedirect c) (background c).

Definition set_oRedirect (c : commandStruct) (path : string) : commandStruct :=
  mkCommand (command c) (args c) (iRedirect c) (Some path) (background c).

Definition set_background (c : commandStruct) : commandStruct :=
  mkCommand (command c) (args c) (iRedirect c) (oRedirect c) true.

(** The [do ... while] loop; [toks] starts at the current token.  After
    [<] or [>] the next token is taken as the path without a check, and
    [strlen] of it faults when there is none. *)
Fixpoint scan_redirects (fgOnly : bool) (toks : list string)
    (c : commandStruct) : result commandStruct :=
  match toks with
  | [] => Ok c
  | token :: rest =>
      if String.eqb token "<" then
        match rest with
        | [] => Fault NullDeref
        | path :: rest' => scan_redirects fgOnly rest' (set_iRedirect c path)
        end
      else if String.eqb token ">" then
        match rest with
        | [] => Fault NullDeref
        | path :: rest' => scan_redirects fgOnly rest' (set_oRedirect c path)
        end
      else if String.eqb token "&" && negb fgOnly then
        scan_redirects fgOnly rest (set_background c)
      else scan_redirects fgOnly rest c
  end.

(** [parseInput]: [Ok None] is the null pointer returned for a line
    without a token. *)
Definition parseInput (input : string) (fgOnly : bool)
    : result (option commandStruct) :=
  match tokens input with
  | [] => Ok None
  | name :: rest =>
      let '(found, remaining) := collect_args rest in
      (* the null pointer that ends [args] is stored at index
         [1 + length found] *)
      if (args_size <=? 1 + length found)%nat then Fault BufferOverrun
      else
        c ← scan_redirects fgOnly remaining
               (mkCommand name (name :: found) None None false);
        Ok (Some c)
  end.

(** ** Processes as the shell sees them *)

Abbreviation pid_t := Z (only parsing).

(** What [waitpid] stores in the status word, as the macros [WIFEXITED],
    [WEXITSTATUS], [WIFSIGNALED] and [WTERMSIG] read it.  [W_OTHER] is a
    word for which neither [WIFEXITED] nor [WIFSIGNALED] holds. *)
Inductive wstatus : Type :=
  | W_EXITED (code : Z)
  | W_SIGNALED (sig : Z)
  | W_OTHER.

(** The kernel's view of the shell's children: those that have terminated
    and have not been waited for, oldest first, and the signals the shell
    has sent with [kill]. *)
Record Kernel : Type := mkKernel {
  zombies : list (pid_t * wstatus);
  signals : list (pid_t * Z)
}.

(** A child terminates: an event of the environment. *)
Definition child_terminates (pid : pid_t) (st : wstatus) (k : Kernel) : Kernel :=
  mkKernel (zombies k ++ [(pid, st)]) (signals k).

Definition kill (pid : pid_t) (sig : Z) (k : Kernel) : Kernel :=
  mkKernel (zombies k) (signals k ++ [(pid, sig)]).

Fixpoint take_zombie (pid : pid_t) (zs : list (pid_t * wstatus))
    : option wstatus * list (pid_t * wstatus) :=
  match zs with
  | [] => (None, [])
  | (p, st) :: rest =>
      if p =? pid then (Some st, rest)
      else let '(found, rest') := take_zombie pid rest in
           (found, (p, st) :: rest')
  end.

(** [waitpid(-1, &status, WNOHANG)]: a terminated child is collected when
    there is one; [None] stands for the returns 0 and -1, which the
    callers do not tell apart. *)
Definition waitpid_any (k : Kernel) : option (pid_t * wstatus) * Kernel :=
  match zombies k with
  | [] => (None, k)
  | z :: rest => (Some z, mkKernel rest (signals k))
  end.

(** [waitpid(pid, &status, WNOHANG)] for one child. *)
Definition waitpid_pid (pid : pid_t) (k : Kernel)
    : option (pid_t * wstatus) * Kernel :=
  match take_zombie pid (zombies k) with
  | (Some st, rest) => (Some (pid, st), mkKernel rest (signals k))
  | (None, _) => (None, k)
  end.

(** ** Launcher, child side ([executeCommand], [case 0]) *)

(** What the child's system calls depend on: its open descriptors and the
    paths that can be opened for reading, opened or created for writing,
    and executed. *)
Record ChildOS : Type := mkChildOS {
  fdtable : list Z;
  readable : list string;
  writable : list string;
  executable : list string
}.

Definition path_in (path : string) (paths : list string) : bool :=
  existsb (String.eqb path) paths.

Definition fd_open (fd : Z) (os : ChildOS) : bool :=
  (0 <=? fd) && existsb (Z.eqb fd) (fdtable os).

(** The lowest descriptor that is not open. *)
Definition lowest_free (table : list Z) : Z :=
  match find (fun fd => negb (existsb (Z.eqb fd) table))
             (map Z.of_nat (seq 0 (S (length table)))) with
  | Some fd => fd
  | None => Z.of_nat (length table)
  end.

Definition open_fd (paths : list string) (path : string) (os : ChildOS)
    : Z * ChildOS :=
  if path_in path paths then
    let fd := lowest_free (fdtable os) in
    (fd, mkChildOS (fd :: fdtable os) (readable os) (writable os) (executable os))
  else (-1, os).

(** [open(path, O_RDONLY)]. *)
Definition open_rdonly (path : string) (os : ChildOS) : Z * ChildOS :=
  open_fd (readable os) path os.

(** [open(path, O_WRONLY | O_CREAT | O_TRUNC, 0640)]. *)
Definition open_wronly (path : string) (os : ChildOS) : Z * ChildOS :=
  open_fd (writable os) path os.

(** [dup2(oldfd, newfd)] fails with -1 when [oldfd] is not an open
    descriptor, and returns [newfd] otherwise. *)
Definition dup2 (oldfd newfd : Z) (os : ChildOS) : Z * ChildOS :=
  if fd_open oldfd os then
    (newfd,
     if fd_open newfd os then os
     else mkChildOS (newfd :: fdtable os) (readable os) (writable os)
                    (executable os))
  else (-1, os).

Inductive sighandler : Type :=
  | SIG_IGN
  | SIG_DFL
  | Handler_SIGTSTP.

(** How the child ends: [exit(code)], or with its image replaced by
    [execvp]. *)
Inductive child_end : Type :=
  | ChildExit (code : Z)
  | ChildImage (file : string) (argv : list string).

(** The child's run: the text it printed on the standard output it got
    from the shell, the argument of [perror] if it was called, whether
    [execvp] was called, its signal dispositions, and its end. *)
Record ChildRun : Type := mkChildRun {
  child_stdout : string;
  child_perror : option string;
  child_execvp : bool;
  child_SIGINT : sighandler;
  child_SIGTSTP : sighandler;
  child_os : ChildOS;
  child_end_ : child_end
}.

Definition dev_null : string := "/dev/null".

(** One redirection block: open the named path or [/dev/null], report a
    failed open, duplicate onto [target]; [inl] is the [exit(1)] after a
    failed [dup2]. *)
Definition redirect (open_ : string -> ChildOS -> Z * ChildOS)
    (direction : string) (target : Z) (path : option string)
    (out : string) (os : ChildOS) : (string * ChildOS) + (string * ChildOS) :=
  let '(fd, os1) :=
    match path with
    | Some p => open_ p os
    | None => open_ dev_null os
    end in
  let out1 :=
    if fd =? -1
    then String.append out
           (cat ["cannot open "; fmt_s path; " for "; direction; nl]%string)
    else out in
  let '(ret, os2) := dup2 fd target os1 in
  if ret =? -1 then inl (out1, os2) else inr (out1, os2).

Definition needs_redirect (c : commandStruct) (path : option string) : bool :=
  background c || match path with Some _ => true | None => false end.

Definition executeCommand_child (c : commandStruct) (os : ChildOS) : ChildRun :=
  let tstp := SIG_IGN in
  let int := if background c then SIG_IGN else SIG_DFL in
  let stop out os' := mkChildRun out None false int tstp os' (ChildExit 1) in
  let after_input :=
    if needs_redirect c (iRedirect c)
    then redirect open_rdonly "input" 0 (iRedirect c) EmptyString os
    else inr (EmptyString, os) in
  match after_input with
  | inl (out, os') => stop out os'
  | inr (out, os') =>
      let after_output :=
        if needs_redirect c (oRedirect c)
        then redirect open_wronly "output" 1 (oRedirect c) out os'
        else inr (out, os') in
      match after_output with
      | inl (out', os'') => stop out' os''
      | inr (out', os'') =>
          if path_in (command c) (executable os'')
          then mkChildRun out' None true int tstp os''
                          (ChildImage (command c) (args c))
          else mkChildRun out' (Some (command c)) true int tstp os''
                          (ChildExit 1)
      end
  end.

(** ** The shell's state *)

(** The variables of [main] that the commands read and write, the global
    [fgOnly], the text on standard output and the kernel. *)
Record Shell : Type := mkShell {
  bgPids : list pid_t;
  statusText : string;
  statusCode : Z;
  fgOnly : bool;
  stdout : string;
  kernel : Kernel
}.

Definition bgPids_size : nat := 256.

Definition printf (text : list string) (sh : Shell) : Shell :=
  mkShell (bgPids sh) (statusText sh) (statusCode sh) (fgOnly sh)
          (String.append (stdout sh) (cat text)) (kernel sh).

Definition set_bgPids (bg : list pid_t) (sh : Shell) : Shell :=
  mkShell bg (statusText sh) (statusCode sh) (fgOnly sh) (stdout sh) (kernel sh).

Definition set_status (text : string) (code : Z) (sh : Shell) : Shell :=
  mkShell (bgPids sh) text code (fgOnly sh) (stdout sh) (kernel sh).

Definition set_fgOnly (b : bool) (sh : Shell) : Shell :=
  mkShell (bgPids sh) (statusText sh) (statusCode sh) b (stdout sh) (kernel sh).

Definition set_kernel (k : Kernel) (sh : Shell) : Shell :=
  mkShell (bgPids sh) (statusText sh) (statusCode sh) (fgOnly sh) (stdout sh) k.

(** How a call ends for the process that runs it: the shell, or the
    child that [fork] created, which never returns from the launcher. *)
Inductive outcome : Type :=
  | Running (sh : Shell)             (* the call returns in the shell *)
  | Exited (code : Z) (sh : Shell)   (* the shell calls [exit(code)] *)
  | Crashed (f : fault)
  | InChild (run : ChildRun).        (* this process is the child *)

(** What one call of the launcher gets from outside: the value [fork]
    returns in the process at hand, the status word that the blocking
    [waitpid] stores for a foreground child, and what the child's system
    calls depend on. *)
Record ForkEnv : Type := mkForkEnv {
  fork_ret : Z;
  childStatus : wstatus;
  child_view : ChildOS
}.

(** ** Signal handler ([handle_SIGTSTP]) *)

(** [write] is given the length of the message with its terminator (51
    and 31), so the null character is written as well. *)
Definition nul : string := String "000"%char EmptyString.

Definition handle_SIGTSTP (sh : Shell) : Shell :=
  if fgOnly sh then
    printf [nl; "Exiting foreground-only mode"; nl; nul]%string
           (set_fgOnly false sh)
  else
    printf [nl; "Entering foreground-only mode (& is now ignored)"; nl; nul]%string
           (set_fgOnly true sh).

(** ** Reap pass ([checkBackground]) *)

(** [for (i = 0; i < 20; i++) if (bgPids[i] == childPid) bgPids[i] = 0;]
    with [n] iterations left. *)
Fixpoint removePid_loop (n i : nat) (bg : list pid_t) (childPid : pid_t)
    : list pid_t :=
  match n with
  | O => bg
  | S n' =>
      let bg' := if decide (bg !! i = Some childPid) then <[i := 0]> bg else bg in
      removePid_loop n' (S i) bg' childPid
  end.

Definition live_slots : nat := 20.

Definition report_done (childPid : pid_t) (bgStatus : wstatus) : list string :=
  match bgStatus with
  | W_EXITED code =>
      ["background pid "; fmt_d childPid; " is done: exit value "; fmt_d code;
       nl]%string
  | W_SIGNALED sig =>
      ["background pid "; fmt_d childPid; " is done: terminated by signal ";
       fmt_d sig; nl]%string
  | W_OTHER => []
  end.

Definition checkBackground (sh : Shell) : Shell :=
  let '(found, k) := waitpid_any (kernel sh) in
  match found with
  | Some (childPid, bgStatus) =>
      if 0 <? childPid then
        set_bgPids (removePid_loop live_slots 0 (bgPids sh) childPid)
          (printf (report_done childPid bgStatus) (set_kernel k sh))
      else set_kernel k sh
  | None => set_kernel k sh
  end.

(** ** The [exit] built-in ([exitShell]) *)

(** [while (bgPids[i] > 0) { kill(bgPids[i], 9); waitpid(bgPids[i],
    &childStatus, WNOHANG); i++; }] where [slots] is the array from index
    [i] on; the loop has no bound of its own, so it reads past the array
    when every slot is positive. *)
Fixpoint exitShell_loop (slots : list pid_t) (k : Kernel) : result Kernel :=
  match slots with
  | [] => Fault BufferOverrun
  | pid :: rest =>
      if 0 <? pid then
        exitShell_loop rest (snd (waitpid_pid pid (kill pid 9 k)))
      else Ok k
  end.

Definition exitShell (sh : Shell) : outcome :=
  match exitShell_loop (bgPids sh) (kernel sh) with
  | Ok k => Exited 0 (set_kernel k sh)
  | Fault f => Crashed f
  end.

(** ** Launcher, parent side ([executeCommand], [default] and [case -1]) *)

(** [for (i = 0; i < 20; i++) if (bgPids[i] == 0) { bgPids[i] = childPid;
    break; }] with [n] iterations left. *)
Fixpoint addPid_loop (n i : nat) (bg : list pid_t) (childPid : pid_t)
    : list pid_t :=
  match n with
  | O => bg
  | S n' =>
      if decide (bg !! i = Some 0) then <[i := childPid]> bg
      else addPid_loop n' (S i) bg childPid
  end.

(** The parent after [fork] returned [childPid].  [status] is what the
    blocking [waitpid] of a foreground child stores when it returns; the
    background branch calls [waitpid] with [WNOHANG] on the child it has
    just registered.  The two [fcntl] calls on [inputFD] and [outputFD],
    which the parent never assigns, are left out. *)
Definition executeCommand_parent (c : commandStruct) (childPid : pid_t)
    (status : wstatus) (sh : Shell) : Shell :=
  if background c then
    let sh1 := printf ["background pid is "; fmt_d childPid; nl]%string sh in
    let sh2 := set_bgPids (addPid_loop live_slots 0 (bgPids sh1) childPid) sh1 in
    set_kernel (snd (waitpid_pid childPid (kernel sh2))) sh2
  else
    match status with
    | W_EXITED code => set_status "exit value" code sh
    | W_SIGNALED _ =>
        printf [("terminated by signal" : string); " "; fmt_d 2; nl]%string
               (set_status "terminated by signal" 2 sh)
    | W_OTHER => sh
    end.

(** The [switch] on what [fork] returned. *)
Definition executeCommand (c : commandStruct) (env : ForkEnv) (sh : Shell)
    : outcome :=
  if fork_ret env =? -1 then Exited 1 sh
  else if fork_ret env =? 0 then
    InChild (executeCommand_child c (child_view env))
  else Running (executeCommand_parent c (fork_ret env) (childStatus env) sh).

(** ** The prompt loop ([main]) *)

Definition main_init : Shell :=
  mkShell (replicate bgPids_size 0) "exit value" 0 false
          (String.append "$ smallsh" nl) (mkKernel [] []).

Definition starts_with_hash (s : string) : bool :=
  match s with
  | String c _ => Ascii.eqb c "#"%char
  | EmptyString => false
  end.

(** The routing of a parsed line: the built-ins [exit], [cd] and
    [status], or the launcher.  [cd] changes the working directory only,
    which the state does not hold. *)
Definition dispatch (c : commandStruct) (env : ForkEnv) (sh : Shell)
    : outcome :=
  if negb (String.eqb (command c) " ") && negb (starts_with_hash (command c)) then
    if String.eqb (command c) "exit" then exitShell sh
    else if String.eqb (command c) "cd" then Running sh
    else if String.eqb (command c) "status" then
      Running (printf [statusText sh; " "; fmt_d (statusCode sh); nl]%string sh)
    else executeCommand c env sh
  else Running sh.

(** One iteration: prompt, read [line], expand, parse, route, reap.  The
    heap is no part of the state, so [free] and [clearStruct] at the end
    of the iteration are left out. *)
Definition loop_body (pid : pid_t) (line : string) (env : ForkEnv)
    (sh : Shell) : outcome :=
  let sh0 := printf [": "]%string sh in
  match expandVariable pid line with
  | Fault f => Crashed f
  | Ok expandedInput =>
      match parseInput expandedInput (fgOnly sh0) with
      | Fault f => Crashed f
      | Ok None => Running (checkBackground sh0)
      | Ok (Some c) =>
          match dispatch c env sh0 with
          | Running sh1 => Running (checkBackground sh1)
          | other => other
          end
      end
  end.

Fixpoint reap_passes (n : nat) (sh : Shell) : Shell :=
  match n with
  | O => sh
  | S n' => reap_passes n' (checkBackground sh)
  end.

(** ** Targets of the redirections *)

(** The path that a redirection block of the child opens, if the block
    runs at all: the path given on the line, or [/dev/null] for a
    background command without one. *)
Definition redirect_target (c : commandStruct) (path : option string)
    : option string :=
  if needs_redirect c path then
    Some (match path with Some p => p | None => dev_null end)
  else None.

Definition target_ok (paths : list string) (target : option string) : bool :=
  match target with
  | Some p => path_in p paths
  | None => true
  end.

Definition cannot_open (path : option string) (direction : string) : string :=
  cat ["cannot open "; fmt_s path; " for "; direction; nl]%string.

(** Two views of the system that differ in the open descriptors only. *)
Definition same_paths (os os' : ChildOS) : Prop :=
  readable os' = readable os
  /\ writable os' = writable os
  /\ executable os' = executable os.

(** A command that the prompt loop runs as a foreground child: it passes
    the filter of [main], is no built-in, and is not a background one. *)
Definition runs_foreground (c : commandStruct) : bool :=
  negb (String.eqb (command c) " ") && negb (starts_with_hash (command c))
  && negb (String.eqb (command c) "exit")
  && negb (String.eqb (command c) "cd")
  && negb (String.eqb (command c) "status")
  && negb (background c).

(** ** Inputs used in the examples *)

Definition sleep_line : string := String.append "sleep 5 &" nl.

Definition sleep_fg : commandStruct :=
  mkCommand "sleep" ["sleep"; "5"]%string None None false.

Definition sleep_bg : commandStruct :=
  mkCommand "sleep" ["sleep"; "5"]%string None None true.

Definition nosuchcmd_bg : commandStruct :=
  mkCommand "nosuchcmd" ["nosuchcmd"]%string None None true.

Definition status_cmd : commandStruct :=
  mkCommand "status" ["status"]%string None None false.

Definition ls_to_missing_dir : commandStruct :=
  mkCommand "ls" ["ls"]%string None (Some "/no/such/dir/out.txt"%string) false.

(** A child with the three standard descriptors, in a system where
    [/dev/null] can be opened and [ls] can be executed. *)
Definition plain_os : ChildOS :=
  mkChildOS [0; 1; 2] ["/dev/null"]%string ["/dev/null"]%string ["ls"]%string.

Definition fork_4242 : ForkEnv := mkForkEnv 4242 W_OTHER plain_os.

(** The table after two background children were registered and the
    first of them was reaped: slot 0 is empty again, slot 1 is live. *)
Definition table_with_gap : list pid_t :=
  <[1%nat := 4242]> (replicate bgPids_size 0).

(** The shell at the launcher's [waitpid] when the background child 4242
    has already terminated, as a child does whose [execvp] fails at
    once. *)
Definition child_already_gone : Shell :=
  set_kernel (child_terminates 4242 (W_EXITED 1) (kernel main_init)) main_init.

(** ** Reading a line ([getInput]) *)


(** [fgets(inputText, 2048, stdin)] on the input that is left: at most
    [n] characters are stored, up to and including the first newline.
    The block comes zeroed from [calloc], so at the end of the input,
    where [fgets] stores nothing, the line is empty. *)
Fixpoint fgets (n : nat) (stdin : string) : string * string :=
  match n with
  | O => (EmptyString, stdin)
  | S n' =>
      match stdin with
      | EmptyString => (EmptyString, EmptyString)
      | String c rest =>
          if Ascii.eqb c "010"%char then (String c EmptyString, rest)
          else let '(line, unread) := fgets n' rest in (String c line, unread)
      end
  end.

(** The prompt, then the line and the input left after it. *)
Definition getInput (stdin : string) (sh : Shell) : Shell * (string * string) :=
  (printf [": "]%string sh, fgets (2048 - 1) stdin).

(** One iteration of the loop of [main] on the input that is left;
    [loop_body] prints the prompt of [getInput]. *)
Definition main_iteration (pid : pid_t) (env : ForkEnv) (stdin : string)
    (sh : Shell) : outcome * string :=
  let '(line, unread) := snd (getInput stdin sh) in
  (loop_body pid line env sh, unread).

(** ** States of the running shell *)

(** The states that the shell goes through: it starts in [main_init];
    an iteration of the prompt loop returns; the handler of the toggle
    signal runs; a child terminates. *)
Inductive reachable : Shell -> Prop :=
  | reach_init : reachable main_init
  | reach_iteration (pid : pid_t) (line : string) (env : ForkEnv)
      (sh sh' : Shell) :
      reachable sh -> loop_body pid line env sh = Running sh' -> reachable sh'
  | reach_signal (sh : Shell) :
      reachable sh -> reachable (handle_SIGTSTP sh)
  | reach_child (pid : pid_t) (st : wstatus) (sh : Shell) :
      reachable sh ->
      reachable (set_kernel (child_terminates pid st (kernel sh)) sh).

(** No process identifier other than 0 stands in two slots. *)
Definition unique_pids (bg : list pid_t) : Prop :=
  forall i j p, bg !! i = Some p -> bg !! j = Some p -> p <> 0 -> i = j.

(** A text without the character of the marker. *)
Fixpoint dollar_free (s : string) : bool :=
  match s with
  | EmptyString => true
  | String c rest => negb (Ascii.eqb c dollar) && dollar_free rest
  end.

Definition only_delims (s : string) : Prop :=
  skip_delims s = EmptyString.

Definition clear_background (c : commandStruct) : commandStruct :=
  mkCommand (command c) (args c) (iRedirect c) (oRedirect c) false.

Fixpoint repeat_text (n : nat) (s : string) : string :=
  match n with
  | O => EmptyString
  | S n' => String.append s (repeat_text n' s)
  end.

(** The table as [main] declares it, with nothing stored past the live
    slots. *)
Definition table_ok (sh : Shell) : Prop :=
  length (bgPids sh) = bgPids_size
  /\ forall j, (live_slots <= j < bgPids_size)%nat -> bgPids sh !! j = Some 0.

(** The two values that the status takes. *)
Definition status_ok (sh : Shell) : Prop :=
  statusText sh = "exit value"%string
  \/ (statusText sh = "terminated by signal"%string /\ statusCode sh = 2).

(** A text without a delimiter of [strtok_r]. *)
Fixpoint delim_free (s : string) : bool :=
  match s with
  | EmptyString => true
  | String c rest => negb (is_delim c) && delim_free rest
  end.

(** A table with two background children, in slots 0 and 2. *)
Definition two_jobs : list pid_t :=
  4241 :: 0 :: 4243 :: replicate 253 0.

(** * Properties *)

(** ** Texts *)

Section Texts.

Lemma length_append (s t : string) :
  String.length (String.append s t) = (String.length s + String.length t)%nat.
Proof. induction s as [|c s IH]; simpl; [reflexivity | now rewrite IH]. Qed.

Lemma append_empty_r (s : string) : String.append s EmptyString = s.
Proof. induction s as [|c s IH]; simpl; [reflexivity | now rewrite IH]. Qed.

Lemma append_assoc (s t u : string) :
  String.append (String.append s t) u = String.append s (String.append t u).
Proof. induction s as [|c s IH]; simpl; [reflexivity | now rewrite IH]. Qed.

(** Induction that follows the scan of the expander: a text is empty,
    starts with the marker, or starts with a character that is copied. *)
Lemma marker_scan_ind (P : string -> Prop) :
  P EmptyString ->
  (forall rest, P rest -> P (String dollar (String dollar rest))) ->
  (forall c rest,
      (c <> dollar \/ forall rest', rest <> String dollar rest') ->
      P rest -> P (String c rest)) ->
  forall s, P s.
Proof.
  intros Hnil Hmark Hcopy s.
  assert (H : P s /\ forall c, P (String c s)).
  { induction s as [|c' s [IHs IHc]].
    - split; [exact Hnil|]. intros c. apply Hcopy; [|exact Hnil].
      right. intros rest' Habs. discriminate Habs.
    - split; [apply IHc|]. intros c.
      destruct (Ascii.eqb_spec c dollar) as [->|Hc].
      + destruct (Ascii.eqb_spec c' dollar) as [->|Hc'].
        * apply Hmark, IHs.
        * apply Hcopy; [|apply IHc]. right. intros rest' Habs.
          injection Habs as Habs _. contradiction.
      + apply Hcopy; [now left | apply IHc]. }
  apply H.
Qed.

End Texts.

(** ** Variable expander *)

Section Expander.

Variable pidString : string.

Lemma countMarkers_marker (rest : string) :
  countMarkers (String dollar (String dollar rest)) = S (countMarkers rest).
Proof. reflexivity. Qed.

Lemma replaceMarkers_marker (rest : string) :
  replaceMarkers pidString (String dollar (String dollar rest))
  = String.append pidString (replaceMarkers pidString rest).
Proof. reflexivity. Qed.

Lemma countMarkers_copy (c : ascii) (rest : string) :
  (c <> dollar \/ forall rest', rest <> String dollar rest') ->
  countMarkers (String c rest) = countMarkers rest.
Proof.
  intros [Hc|Hrest]; cbn [countMarkers].
  - destruct (Ascii.eqb_spec c dollar); [contradiction | reflexivity].
  - destruct (Ascii.eqb c dollar); [|reflexivity].
    destruct rest as [|c' rest']; [reflexivity|].
    destruct (Ascii.eqb_spec c' dollar) as [->|]; [|reflexivity].
    now elim (Hrest rest').
Qed.

Lemma replaceMarkers_copy (c : ascii) (rest : string) :
  (c <> dollar \/ forall rest', rest <> String dollar rest') ->
  replaceMarkers pidString (String c rest)
  = String c (replaceMarkers pidString rest).
Proof.
  intros [Hc|Hrest]; cbn [replaceMarkers].
  - destruct (Ascii.eqb_spec c dollar); [contradiction | reflexivity].
  - destruct (Ascii.eqb c dollar); [|reflexivity].
    destruct rest as [|c' rest']; [reflexivity|].
    destruct (Ascii.eqb_spec c' dollar) as [->|]; [|reflexivity].
    now elim (Hrest rest').
Qed.

(** The block that [malloc] returns is filled exactly: the text written
    by the second loop and its terminator take [result_size] bytes. *)
Lemma replaceMarkers_fills_result (input : string) :
  Z.of_nat (String.length (replaceMarkers pidString input)) + 1
  = result_size pidString input.
Proof.
  unfold result_size.
  induction input as [|rest IH|c rest Hc IH] using marker_scan_ind.
  - reflexivity.
  - rewrite replaceMarkers_marker, countMarkers_marker, length_append.
    cbn [String.length]. lia.
  - rewrite replaceMarkers_copy, countMarkers_copy by exact Hc.
    cbn [String.length]. lia.
Qed.

(** The length of the output, as the specification gives it. *)
Lemma replaceMarkers_length (input : string) :
  Z.of_nat (String.length (replaceMarkers pidString input))
  = Z.of_nat (String.length input)
    + Z.of_nat (countMarkers input) * (Z.of_nat (String.length pidString) - 2).
Proof.
  pose proof (replaceMarkers_fills_result input) as H.
  unfold result_size in H. lia.
Qed.

Lemma split_at_markers_copy (piece : string) (c : ascii) (rest : string) :
  (c <> dollar \/ forall rest', rest <> String dollar rest') ->
  join pidString (split_at_markers piece (String c rest))
  = join pidString
      (split_at_markers (String.append piece (String c EmptyString)) rest).
Proof.
  intros Hc. cbn [split_at_markers].
  destruct rest as [|c' rest']; [reflexivity|].
  destruct (Ascii.eqb_spec c dollar) as [->|]; [|reflexivity].
  destruct (Ascii.eqb_spec c' dollar) as [->|]; [|reflexivity].
  destruct Hc as [Hc|Hc]; [contradiction | now elim (Hc rest')].
Qed.

Lemma split_at_markers_cons (input piece : string) :
  exists p ps, split_at_markers piece input = p :: ps.
Proof.
  revert piece. induction input as [|c rest IH]; intros piece; simpl.
  - eauto.
  - destruct rest as [|c' rest']; [eauto|].
    destruct (_ && _); [eauto | apply IH].
Qed.

Lemma join_split_at_markers (input piece : string) :
  join pidString (split_at_markers piece input)
  = String.append piece (replaceMarkers pidString input).
Proof.
  revert piece.
  induction input as [|rest IH|c rest Hc IH] using marker_scan_ind;
    intros piece.
  - simpl. now rewrite append_empty_r.
  - rewrite replaceMarkers_marker.
    change (split_at_markers piece (String dollar (String dollar rest)))
      with (piece :: split_at_markers EmptyString rest).
    specialize (IH EmptyString). cbn [String.append] in IH.
    destruct (split_at_markers_cons rest EmptyString) as [p [ps E]].
    rewrite E in *.
    change (join pidString (piece :: p :: ps))
      with (String.append piece
              (String.append pidString (join pidString (p :: ps)))).
    now rewrite IH.
  - rewrite split_at_markers_copy, replaceMarkers_copy by exact Hc.
    rewrite IH, append_assoc. reflexivity.
Qed.

(** The second loop computes the replacement that the specification
    describes. *)
Lemma replaceMarkers_spec_expand (input : string) :
  replaceMarkers pidString input = spec_expand pidString input.
Proof. unfold spec_expand. now rewrite join_split_at_markers. Qed.

Lemma no_marker_tail (c : ascii) (rest : string) :
  ~ has_marker (String c rest) -> ~ has_marker rest.
Proof.
  intros H [pre [post E]]. apply H.
  exists (String c pre), post. simpl. now rewrite E.
Qed.

Lemma countMarkers_no_marker (input : string) :
  ~ has_marker input -> countMarkers input = O.
Proof.
  induction input as [|rest IH|c rest Hc IH] using marker_scan_ind;
    intros H.
  - reflexivity.
  - elim H. now exists EmptyString, rest.
  - rewrite countMarkers_copy by exact Hc.
    apply IH. now apply no_marker_tail with c.
Qed.

Lemma replaceMarkers_no_marker (input : string) :
  ~ has_marker input -> replaceMarkers pidString input = input.
Proof.
  induction input as [|rest IH|c rest Hc IH] using marker_scan_ind;
    intros H.
  - reflexivity.
  - elim H. now exists EmptyString, rest.
  - rewrite replaceMarkers_copy by exact Hc.
    f_equal. apply IH. now apply no_marker_tail with c.
Qed.

End Expander.

Section Markers.

Lemma has_marker_copy (c : ascii) (rest : string) :
  (c <> dollar \/ forall rest', rest <> String dollar rest') ->
  has_marker (String c rest) -> has_marker rest.
Proof.
  intros Hc [pre [post E]]. destruct pre as [|c' pre]; simpl in E.
  - injection E as -> ->. destruct Hc as [Hc|Hc]; [contradiction|].
    now elim (Hc post).
  - injection E as _ ->. now exists pre, post.
Qed.

Lemma has_marker_cons (c : ascii) (rest : string) :
  has_marker rest -> has_marker (String c rest).
Proof.
  intros [pre [post E]]. exists (String c pre), post. simpl. now rewrite E.
Qed.

(** The first loop finds a marker exactly when the text has one. *)
Lemma has_marker_counted (input : string) :
  has_marker input <-> countMarkers input <> O.
Proof.
  induction input as [|rest IH|c rest Hc IH] using marker_scan_ind.
  - split; [|now intros H]. intros [[|c pre] [post E]]; discriminate E.
  - rewrite countMarkers_marker. split; [discriminate|].
    intros _. now exists EmptyString, rest.
  - rewrite countMarkers_copy by exact Hc. rewrite <- IH. split.
    + now apply has_marker_copy.
    + apply has_marker_cons.
Qed.

Lemma no_marker_counted (input : string) :
  countMarkers input = O -> ~ has_marker input.
Proof. intros H Hm. now apply has_marker_counted in Hm. Qed.

End Markers.

(** When the decimal text of the process identifier fits [pidString], the
    expander returns the replacement that the specification describes,
    of the length it states. *)
Lemma expandVariable_fits (pid : Z) (input pidString : string) :
  sprintf_pidString pid = Ok pidString ->
  pidString = fmt_d pid
  /\ expandVariable pid input = Ok (spec_expand pidString input)
  /\ Z.of_nat (String.length (spec_expand pidString input))
     = Z.of_nat (String.length input)
       + Z.of_nat (countMarkers input)
         * (Z.of_nat (String.length pidString) - 2).
Proof.
  intros H. unfold expandVariable. rewrite H. cbn.
  rewrite <- replaceMarkers_spec_expand. repeat split.
  - unfold sprintf_pidString in H.
    destruct (_ <=? _)%nat in H; [now injection H | discriminate H].
  - apply replaceMarkers_length.
Qed.

(** C7 (the code departs from it): the expander is to return, for every
    input, the text with each marker replaced by the decimal text of the
    process identifier.  The text of a process identifier of five digits
    and its terminator need six bytes, [pidString] has five, and the
    expander leaves defined behaviour whatever the input is; with the
    four digits of 4567 the replacement is the one described. *)
Theorem expandVariable_overruns_pidString :
  sprintf_pidString 12345 = Fault BufferOverrun
  /\ (forall input, expandVariable 12345 input = Fault BufferOverrun)
  /\ expandVariable 4567 "echo hi$$" = Ok "echo hi4567"%string.
Proof. repeat split. Qed.

(** On an input without the marker the scan counts no occurrence and
    the copy loop returns the input itself, whatever text stands for the
    process identifier; expanding such a text again changes nothing, and
    the expander as a whole returns the input once [pidString] has been
    filled. *)
Theorem expansion_without_marker_is_identity (pidString input : string) :
  ~ has_marker input ->
  countMarkers input = O
  /\ replaceMarkers pidString input = input
  /\ replaceMarkers pidString (replaceMarkers pidString input)
     = replaceMarkers pidString input
  /\ forall pid,
       expandVariable pid input = (_ ← sprintf_pidString pid; Ok input).
Proof.
  intros H.
  pose proof (replaceMarkers_no_marker pidString input H) as E.
  repeat split.
  - now apply countMarkers_no_marker.
  - exact E.
  - now rewrite !E.
  - intros pid. unfold expandVariable.
    destruct (sprintf_pidString pid) as [p|f]; cbn; [|reflexivity].
    now rewrite replaceMarkers_no_marker.
Qed.

Lemma expansion_without_marker_is_identity_witness :
  ~ has_marker "ls -la"
  /\ replaceMarkers "12345" "ls -la" = "ls -la"%string
  /\ expandVariable 4567 "ls -la" = Ok "ls -la"%string.
Proof.
  assert (H : ~ has_marker "ls -la") by (apply no_marker_counted; reflexivity).
  destruct (expansion_without_marker_is_identity "12345" "ls -la" H)
    as (_ & E & _ & F).
  split; [exact H | split; [exact E | exact (F 4567)]].
Defined.

(** C8 (the code departs from it): on an input without the marker the
    expander is to return the input.  The line [ls -la] has no marker,
    yet with a process identifier of five digits the expander overruns
    [pidString] before it looks at the input, the defect of C7, and no
    text is returned; with the four digits of 4567 the input comes
    back. *)
Theorem expandVariable_without_marker_overruns :
  ~ has_marker "ls -la"
  /\ expandVariable 12345 "ls -la" = Fault BufferOverrun
  /\ expandVariable 4567 "ls -la" = Ok "ls -la"%string.
Proof.
  split; [apply no_marker_counted; reflexivity | split; reflexivity].
Qed.

(** ** Line parser *)

Section Tokens.

Lemma skip_delims_head (s : string) :
  skip_delims s = EmptyString
  \/ exists c rest, skip_delims s = String c rest /\ is_delim c = false.
Proof.
  induction s as [|c s IH]; simpl; [now left|].
  destruct (is_delim c) eqn:E; [exact IH|]. right. now exists c, s.
Qed.

Lemma tokens_from_skip (s : string) :
  tokens_from EmptyString s = tokens_from EmptyString (skip_delims s).
Proof.
  induction s as [|c s IH]; simpl; [reflexivity|].
  destruct (is_delim c) eqn:E; [exact IH|]. simpl. now rewrite E.
Qed.

Lemma tokens_from_take (s cur : string) :
  cur <> EmptyString
  \/ (exists c rest, s = String c rest /\ is_delim c = false) ->
  tokens_from cur s
  = String.append cur (fst (take_token s))
    :: tokens_from EmptyString (snd (take_token s)).
Proof.
  revert cur. induction s as [|c s IH]; intros cur H.
  - destruct H as [H|(c & rest & E & _)]; [|discriminate E].
    simpl. rewrite append_empty_r. now destruct cur.
  - simpl. destruct (is_delim c) eqn:E.
    + destruct H as [H|(c' & rest & E' & Hc')].
      * simpl. rewrite append_empty_r. now destruct cur.
      * injection E' as -> ->. congruence.
    + rewrite IH.
      * destruct (take_token s) as [tok after]. simpl.
        now rewrite append_assoc.
      * left. now destruct cur.
Qed.

(** [tokens] lists what the successive calls of [strtok_r] return. *)
Lemma tokens_strtok_r (s : string) :
  tokens s =
  match strtok_r s with
  | None => []
  | Some (token, saveptr) => token :: tokens saveptr
  end.
Proof.
  unfold tokens, strtok_r. rewrite tokens_from_skip.
  destruct (skip_delims_head s) as [E|(c & rest & E & Hc)]; rewrite E.
  - reflexivity.
  - rewrite tokens_from_take by (right; now exists c, rest).
    now destruct (take_token (String c rest)).
Qed.

End Tokens.

Section Parser.

Lemma collect_args_app (toks found remaining : list string) :
  collect_args toks = (found, remaining) -> toks = found ++ remaining.
Proof.
  revert found remaining.
  induction toks as [|token rest IH]; intros found remaining; simpl.
  - now intros [= <- <-].
  - destruct (is_special token).
    + now intros [= <- <-].
    + destruct (collect_args rest) as [f r]. intros [= <- <-].
      simpl. f_equal. now apply IH.
Qed.

(** Induction that follows the [do ... while] loop: a redirection
    operator takes the token after it along. *)
Lemma scan_ind (P : list string -> Prop) :
  P [] ->
  (forall token, P [token]) ->
  (forall token path rest, P rest -> P (path :: rest) ->
                           P (token :: path :: rest)) ->
  forall toks, P toks.
Proof.
  intros Hnil Hone Hstep toks.
  assert (H : P toks /\ forall token, P (token :: toks)).
  { induction toks as [|path rest [IH1 IH2]].
    - split; [exact Hnil | exact Hone].
    - split; [apply IH2|]. intros token. now apply Hstep. }
  apply H.
Qed.

Lemma scan_redirects_background (fg : bool) (toks : list string) :
  forall c c',
    scan_redirects fg toks c = Ok c' ->
    background c' = true ->
    background c = true \/ (fg = false /\ In "&"%string toks).
Proof.
  induction toks as [|token|token path rest IH1 IH2] using scan_ind;
    intros c c'.
  - simpl. intros [= <-]. now left.
  - simpl.
    destruct (String.eqb token "<"); [discriminate|].
    destruct (String.eqb token ">"); [discriminate|].
    destruct (String.eqb_spec token "&") as [->|]; simpl.
    + destruct fg; simpl; intros [= <-] Hb; [now left|].
      right. split; [reflexivity | now left].
    + intros [= <-]. now left.
  - cbn [scan_redirects].
    destruct (String.eqb token "<").
    { intros H Hb. destruct (IH1 _ _ H Hb) as [Hc|[Hf Hin]]; [now left|].
      right. split; [exact Hf | now do 2 right]. }
    destruct (String.eqb token ">").
    { intros H Hb. destruct (IH1 _ _ H Hb) as [Hc|[Hf Hin]]; [now left|].
      right. split; [exact Hf | now do 2 right]. }
    destruct (String.eqb_spec token "&") as [->|]; simpl.
    + destruct fg; simpl; intros H Hb.
      * destruct (IH2 _ _ H Hb) as [Hc|[Hf _]]; [now left | discriminate Hf].
      * right. split; [reflexivity | now left].
    + intros H Hb. destruct (IH2 _ _ H Hb) as [Hc|[Hf Hin]]; [now left|].
      right. split; [exact Hf | now right].
Qed.

Lemma parseInput_background (input : string) (fg : bool) (c : commandStruct) :
  parseInput input fg = Ok (Some c) ->
  background c = true ->
  fg = false /\ In "&"%string (tail (tokens input)).
Proof.
  unfold parseInput. destruct (tokens input) as [|name rest]; [discriminate|].
  destruct (collect_args rest) as [found remaining] eqn:E.
  destruct (_ <=? _)%nat; [discriminate|].
  destruct (scan_redirects fg remaining _) as [c0|f] eqn:S; [|discriminate].
  cbn. intros [= <-] Hb.
  destruct (scan_redirects_background _ _ _ _ S Hb) as [Hc|[Hf Hin]];
    [discriminate Hc|].
  split; [exact Hf|]. simpl. apply collect_args_app in E. subst rest.
  apply in_or_app. now right.
Qed.

End Parser.

(** C5: a line parsed while the foreground-only flag is set gives a
    command whose background flag is false, also when the line ends in
    the background marker. *)
Theorem parseInput_fgOnly_foreground (input : string) (c : commandStruct) :
  parseInput input true = Ok (Some c) -> background c = false.
Proof.
  intros H. destruct (background c) eqn:Hb; [|reflexivity].
  destruct (parseInput_background _ _ _ H Hb) as [Hf _]. discriminate Hf.
Qed.

Lemma parseInput_fgOnly_foreground_witness :
  parseInput sleep_line true
  = Ok (Some (mkCommand "sleep" ["sleep"; "5"]%string None None false))
  /\ background (mkCommand "sleep" ["sleep"; "5"]%string None None false) = false.
Proof.
  split; [reflexivity|].
  apply (parseInput_fgOnly_foreground sleep_line). reflexivity.
Defined.

(** C4, as the claim words it, fails: the background marker is honoured
    although further tokens follow it.  On [sleep 5 & extra] the last
    token is [extra] and the command is a background one. *)
Lemma background_marker_before_other_tokens :
  parseInput "sleep 5 & extra" false
  = Ok (Some (mkCommand "sleep" ["sleep"; "5"]%string None None true))
  /\ last (tokens "sleep 5 & extra") = Some "extra"%string
  /\ ~ (forall input fg c,
          parseInput input fg = Ok (Some c) -> background c = true ->
          last (tokens input) = Some "&"%string /\ fg = false).
Proof.
  split; [reflexivity | split; [reflexivity|]]. intros H.
  destruct (H "sleep 5 & extra"%string false _ eq_refl eq_refl) as [E _].
  discriminate E.
Qed.

(** C4, amended: the background flag of the parsed command is true only
    if foreground-only mode is not active and the background marker is
    one of the tokens after the command name; it need not be the last
    token of the line. *)
Theorem parseInput_background_needs_marker (input : string) (fg : bool)
    (c : commandStruct) :
  parseInput input fg = Ok (Some c) ->
  background c = true ->
  fg = false /\ In "&"%string (tail (tokens input)).
Proof. apply parseInput_background. Qed.

Lemma parseInput_background_needs_marker_witness :
  parseInput "sleep 5 & extra" false
  = Ok (Some (mkCommand "sleep" ["sleep"; "5"]%string None None true))
  /\ false = false
  /\ In "&"%string (tail (tokens "sleep 5 & extra")).
Proof.
  split; [reflexivity|].
  apply (parseInput_background_needs_marker "sleep 5 & extra" false
           (mkCommand "sleep" ["sleep"; "5"]%string None None true));
    reflexivity.
Defined.

(** ** Job table *)

Section JobTable.

Implicit Types (bg : list pid_t) (pid : pid_t) (n i j : nat).

(** The removal loop zeroes the slots of its range that hold the
    process identifier and leaves every other slot as it is. *)
Lemma removePid_loop_lookup n : forall i bg pid j,
  removePid_loop n i bg pid !! j
  = if decide ((i <= j < i + n)%nat /\ bg !! j = Some pid)
    then Some 0 else bg !! j.
Proof.
  induction n as [|n IH]; intros i bg pid j; cbn [removePid_loop].
  - case_decide as H; [lia | reflexivity].
  - set (bg' := if decide (bg !! i = Some pid) then <[i:=0]> bg else bg).
    rewrite IH. destruct (decide (j = i)) as [->|Hji].
    + rewrite decide_False by lia. subst bg'.
      destruct (decide (bg !! i = Some pid)) as [E|E].
      * rewrite decide_True by (split; [lia | exact E]).
        apply list_lookup_insert_eq. now apply lookup_lt_Some with pid.
      * now rewrite decide_False by (intros [_ H]; contradiction).
    + assert (E : bg' !! j = bg !! j).
      { subst bg'. case_decide; [now apply list_lookup_insert_ne | reflexivity]. }
      rewrite !E.
      destruct (decide ((i <= j < i + S n)%nat /\ bg !! j = Some pid))
        as [[H1 H2]|H].
      * now rewrite decide_True by (split; [lia | exact H2]).
      * rewrite decide_False; [reflexivity|]. intros [H1 H2].
        apply H. split; [lia | exact H2].
Qed.

Lemma removePid_loop_absent n i bg pid :
  (forall j, (i <= j < i + n)%nat -> bg !! j <> Some pid) ->
  removePid_loop n i bg pid = bg.
Proof.
  intros H. apply list_eq. intros j. rewrite removePid_loop_lookup.
  case_decide as Hj; [|reflexivity]. destruct Hj as [Hr Hl].
  now elim (H j Hr).
Qed.

(** The registration loop writes the first empty slot of its range. *)
Lemma addPid_loop_first n : forall i bg pid k,
  (i <= k < i + n)%nat ->
  bg !! k = Some 0 ->
  (forall j, (i <= j < k)%nat -> bg !! j <> Some 0) ->
  addPid_loop n i bg pid = <[k := pid]> bg.
Proof.
  induction n as [|n IH]; intros i bg pid k Hk Hzero Hfirst; [lia|].
  cbn [addPid_loop]. destruct (decide (bg !! i = Some 0)) as [E|E].
  - destruct (decide (k = i)) as [->|Hne]; [reflexivity|].
    elim (Hfirst i); [lia | exact E].
  - destruct (decide (k = i)) as [->|Hne]; [contradiction|].
    apply IH; [lia | exact Hzero |]. intros j Hj. apply Hfirst. lia.
Qed.

Lemma addPid_loop_full n : forall i bg pid,
  (forall j, (i <= j < i + n)%nat -> bg !! j <> Some 0) ->
  addPid_loop n i bg pid = bg.
Proof.
  induction n as [|n IH]; intros i bg pid H; [reflexivity|].
  cbn [addPid_loop]. rewrite decide_False by (apply H; lia).
  apply IH. intros j Hj. apply H. lia.
Qed.

Lemma take_zombie_absent pid (zs : list (pid_t * wstatus)) :
  (forall st, ~ In (pid, st) zs) -> take_zombie pid zs = (None, zs).
Proof.
  induction zs as [|[p st] rest IH]; intros H; simpl; [reflexivity|].
  destruct (Z.eqb_spec p pid) as [->|Hne].
  - elim (H st). now left.
  - rewrite IH; [reflexivity|]. intros st' Hin. apply (H st'). now right.
Qed.

Lemma waitpid_pid_signals pid (k : Kernel) :
  signals (snd (waitpid_pid pid k)) = signals k.
Proof.
  unfold waitpid_pid. now destruct (take_zombie pid (zombies k)) as [[st|] rest].
Qed.

(** A reap pass with no terminated child changes nothing. *)
Lemma checkBackground_idle (sh : Shell) :
  zombies (kernel sh) = [] -> checkBackground sh = sh.
Proof.
  destruct sh as [bg text code fg out [zs sent]]. simpl. intros ->.
  reflexivity.
Qed.

(** A reap pass that finds a terminated child reports it, collects it,
    and zeroes the live slots that hold its process identifier. *)
Lemma checkBackground_reaps (sh : Shell) pid (st : wstatus)
    (rest : list (pid_t * wstatus)) :
  zombies (kernel sh) = (pid, st) :: rest ->
  0 < pid ->
  stdout (checkBackground sh)
  = String.append (stdout sh) (cat (report_done pid st))
  /\ zombies (kernel (checkBackground sh)) = rest
  /\ (forall j, bgPids (checkBackground sh) !! j
                = if decide ((j < live_slots)%nat /\ bgPids sh !! j = Some pid)
                  then Some 0 else bgPids sh !! j)
  /\ statusText (checkBackground sh) = statusText sh
  /\ statusCode (checkBackground sh) = statusCode sh.
Proof.
  intros Hz Hpos. unfold checkBackground, waitpid_any. rewrite Hz.
  apply Z.ltb_lt in Hpos. rewrite Hpos.
  unfold set_bgPids, printf, set_kernel.
  cbn [stdout kernel bgPids statusText statusCode zombies].
  split; [reflexivity|]. split; [reflexivity|].
  split; [|split; reflexivity].
  intros j. rewrite removePid_loop_lookup.
  destruct (decide ((j < live_slots)%nat /\ bgPids sh !! j = Some pid))
    as [[H1 H2]|H].
  - now rewrite decide_True by (split; [lia | exact H2]).
  - rewrite decide_False; [reflexivity|]. intros [H1 H2].
    apply H. split; [lia | exact H2].
Qed.

(** The removal of a process identifier that the table does not hold
    leaves the table as it is. *)
Lemma checkBackground_untracked (sh : Shell) :
  (forall pid st, In (pid, st) (zombies (kernel sh)) ->
                  forall j, bgPids sh !! j <> Some pid) ->
  bgPids (checkBackground sh) = bgPids sh.
Proof.
  intros H. unfold checkBackground, waitpid_any.
  destruct (zombies (kernel sh)) as [|[pid st] rest] eqn:Hz; [reflexivity|].
  destruct (0 <? pid); [|reflexivity].
  unfold set_bgPids, printf, set_kernel. cbn [bgPids].
  apply removePid_loop_absent. intros j _. apply (H pid st). now left.
Qed.

Lemma reap_passes_idle n (sh : Shell) :
  zombies (kernel sh) = [] -> reap_passes n sh = sh.
Proof.
  intros H. induction n as [|n IH]; [reflexivity|].
  cbn [reap_passes]. now rewrite checkBackground_idle.
Qed.

(** The loop of [exit] signals the positive slots before the first slot
    that is not positive, and no other. *)
Lemma exitShell_loop_signals (slots : list pid_t) : forall k k',
  exitShell_loop slots k = Ok k' ->
  exists killed rest,
    slots = killed ++ rest
    /\ Forall (fun p => 0 < p) killed
    /\ (exists p rest', rest = p :: rest' /\ p <= 0)
    /\ signals k' = signals k ++ map (fun p => (p, 9)) killed.
Proof.
  induction slots as [|pid slots IH]; intros k k'; simpl; [discriminate|].
  destruct (Z.ltb_spec 0 pid) as [Hpos|Hle].
  - intros H. destruct (IH _ _ H) as (killed & rest & -> & Hk & Hr & Hs).
    exists (pid :: killed), rest. repeat split; [now constructor | exact Hr |].
    rewrite Hs, waitpid_pid_signals. simpl. now rewrite <- app_assoc.
  - intros [= <-]. exists [], (pid :: slots).
    repeat split; [constructor | now exists pid, slots |].
    simpl. now rewrite app_nil_r.
Qed.

End JobTable.

(** C9: the launcher stores the process identifier of a background
    child in the first of the 20 live slots that holds 0; when none of
    them does, the table stays as it is, and in both cases the only text
    printed is the notice with the process identifier. *)
Theorem background_child_registration (c : commandStruct) (childPid : pid_t)
    (st : wstatus) (sh : Shell) :
  background c = true ->
  stdout (executeCommand_parent c childPid st sh)
  = String.append (stdout sh)
      (cat ["background pid is "; fmt_d childPid; nl]%string)
  /\ (forall k,
        (k < 20)%nat ->
        bgPids sh !! k = Some 0 ->
        (forall j, (j < k)%nat -> bgPids sh !! j <> Some 0) ->
        bgPids (executeCommand_parent c childPid st sh)
        = <[k := childPid]> (bgPids sh))
  /\ ((forall j, (j < 20)%nat -> bgPids sh !! j <> Some 0) ->
      bgPids (executeCommand_parent c childPid st sh) = bgPids sh).
Proof.
  intros Hb. unfold executeCommand_parent. rewrite Hb.
  unfold set_bgPids, printf, set_kernel. cbn [stdout bgPids].
  split; [reflexivity|]. split.
  - intros k Hk Hzero Hfirst. apply addPid_loop_first.
    + unfold live_slots. lia.
    + exact Hzero.
    + intros j Hj. apply Hfirst. lia.
  - intros Hfull. apply addPid_loop_full. intros j Hj. apply Hfull.
    unfold live_slots in Hj. lia.
Qed.

Lemma background_child_registration_witness :
  background sleep_bg = true
  /\ bgPids (executeCommand_parent sleep_bg 4242 W_OTHER main_init)
     = <[0%nat := 4242]> (bgPids main_init).
Proof.
  split; [reflexivity|].
  destruct (background_child_registration sleep_bg 4242 W_OTHER main_init
              eq_refl) as (_ & H & _).
  apply (H 0%nat); [lia | reflexivity | intros j Hj; lia].
Defined.

(** A table whose 20 live slots are taken: the registration is skipped,
    although the array has 256 entries. *)
Example registration_skipped_when_full :
  let full := replicate 20 7 ++ replicate 236 0 in
  bgPids (executeCommand_parent sleep_bg 4242 W_OTHER (set_bgPids full main_init))
  = full.
Proof. reflexivity. Qed.

(** C2 (the code departs from it): every background child that
    terminates is to be reported by exactly one later reap pass, which
    zeroes its slot.  When the child has terminated before the launcher
    reaches its own [waitpid] with [WNOHANG], that call collects the
    child: the launcher returns with the child registered in slot 0 and
    no terminated child left, and no number of reap passes reports it or
    frees the slot. *)
Theorem launcher_collects_background_child :
  exists sh,
    executeCommand nosuchcmd_bg fork_4242 child_already_gone = Running sh
    /\ zombies (kernel child_already_gone) = [(4242, W_EXITED 1)]
    /\ stdout sh
       = String.append (stdout child_already_gone)
           (String.append "background pid is 4242" nl)
    /\ bgPids sh !! 0%nat = Some 4242
    /\ zombies (kernel sh) = []
    /\ forall n, reap_passes n sh = sh.
Proof.
  eexists. split; [reflexivity|]. repeat split.
  intros n. apply reap_passes_idle. reflexivity.
Qed.

(** The same child, terminating after the launcher has returned, is
    reported by the next reap pass, which frees its slot; the pass after
    it reports nothing. *)
Example late_child_is_reported :
  let sh1 := executeCommand_parent nosuchcmd_bg 4242 W_OTHER main_init in
  let sh2 := set_kernel (child_terminates 4242 (W_EXITED 1) (kernel sh1)) sh1 in
  stdout (checkBackground sh2)
  = String.append (stdout sh2)
      (String.append "background pid 4242 is done: exit value 1" nl)
  /\ bgPids (checkBackground sh2) = bgPids main_init
  /\ checkBackground (checkBackground sh2) = checkBackground sh2.
Proof. repeat split. Qed.

(** C3 (the code departs from it): [exit] is to signal every process
    identifier in the table.  The loop stops at the first slot that is
    not positive, so with slot 0 empty and 4242 in slot 1 no signal is
    sent before the shell exits with code 0. *)
Theorem exitShell_stops_at_empty_slot :
  table_with_gap !! 1%nat = Some 4242
  /\ exitShell (set_bgPids table_with_gap main_init)
     = Exited 0 (set_bgPids table_with_gap main_init)
  /\ signals (kernel (set_bgPids table_with_gap main_init)) = [].
Proof. repeat split. Qed.

(** With the tracked children in the leading slots, each of them is
    signalled. *)
Example exitShell_signals_leading_slots :
  exists sh,
    exitShell (set_bgPids (<[0%nat := 4241]> table_with_gap) main_init)
    = Exited 0 sh
    /\ signals (kernel sh) = [(4241, 9); (4242, 9)].
Proof. eexists. split; reflexivity. Qed.

(** C6: when the blocking wait for a foreground child returns, a normal
    termination stores the text [exit value] and the exit code and prints
    nothing, and a later [status] prints them; a termination by a signal
    stores [terminated by signal] and 2 and prints that line at once. *)
Theorem foreground_child_status (c : commandStruct) (env : ForkEnv)
    (sh : Shell) :
  background c = false ->
  fork_ret env <> -1 ->
  fork_ret env <> 0 ->
  (forall code,
      childStatus env = W_EXITED code ->
      exists sh',
        executeCommand c env sh = Running sh'
        /\ statusText sh' = "exit value"%string
        /\ statusCode sh' = code
        /\ stdout sh' = stdout sh
        /\ forall env',
             dispatch status_cmd env' sh'
             = Running (printf ["exit value"; " "; fmt_d code; nl]%string sh'))
  /\ (forall sig,
        childStatus env = W_SIGNALED sig ->
        exists sh',
          executeCommand c env sh = Running sh'
          /\ statusText sh' = "terminated by signal"%string
          /\ statusCode sh' = 2
          /\ stdout sh'
             = String.append (stdout sh)
                 (String.append "terminated by signal 2" nl)).
Proof.
  intros Hb H1 H0. unfold executeCommand, executeCommand_parent.
  apply Z.eqb_neq in H1, H0. rewrite H1, H0, Hb. split.
  - intros code ->. eexists. split; [reflexivity|]. repeat split.
  - intros sig ->. eexists. split; [reflexivity|]. repeat split.
Qed.

Lemma foreground_child_status_witness :
  exists sh',
    executeCommand sleep_fg (mkForkEnv 4242 (W_EXITED 3) plain_os) main_init
    = Running sh'
    /\ statusText sh' = "exit value"%string
    /\ statusCode sh' = 3
    /\ stdout sh' = stdout main_init.
Proof.
  destruct (foreground_child_status sleep_fg
              (mkForkEnv 4242 (W_EXITED 3) plain_os) main_init)
    as [H _]; [reflexivity | discriminate | discriminate |].
  destruct (H 3 eq_refl) as (sh' & E & Ht & Hc & Ho & _).
  exists sh'. repeat split; assumption.
Defined.

(** C10: the shell starts with the status text [exit value] and the code
    0, so [status] as the first command prints [exit value 0]: after it
    the text on standard output is the banner followed by that line, and
    the status is as it was. *)
Theorem initial_status :
  statusText main_init = "exit value"%string
  /\ statusCode main_init = 0
  /\ parseInput (String.append "status" nl) (fgOnly main_init)
     = Ok (Some status_cmd)
  /\ (forall env,
        dispatch status_cmd env main_init
        = Running (printf [String.append "exit value 0" nl] main_init))
  /\ forall env, exists sh,
       dispatch status_cmd env main_init = Running sh
       /\ stdout sh
          = String.append (stdout main_init) (String.append "exit value 0" nl)
       /\ stdout sh
          = String.append "$ smallsh"
              (String.append nl (String.append "exit value 0" nl))
       /\ statusText sh = "exit value"%string
       /\ statusCode sh = 0.
Proof.
  repeat split. intros env. eexists. split; [reflexivity|]. repeat split.
Qed.

(** The whole first iteration on the line [status], in a shell whose
    process identifier is 4567. *)
Example status_first_iteration (env : ForkEnv) :
  loop_body 4567 (String.append "status" nl) env main_init
  = Running (printf [": "; String.append "exit value 0" nl]%string main_init).
Proof. reflexivity. Qed.

(** ** Launcher, child side *)

Section Redirect.

Lemma lowest_free_nonneg (table : list Z) : 0 <= lowest_free table.
Proof.
  unfold lowest_free.
  destruct (find _ _) as [fd|] eqn:E; [|lia].
  apply find_some in E as [Hin _].
  apply in_map_iff in Hin as (n & <- & _). lia.
Qed.

(** [paths_of] selects the paths that the open call of the block
    accepts: [readable] for [open_rdonly], [writable] for
    [open_wronly]. *)
Variable paths_of : ChildOS -> list string.

Let open_ (path : string) (os : ChildOS) : Z * ChildOS :=
  open_fd (paths_of os) path os.

(** A failed open is reported, and the [dup2] of the descriptor -1 that
    follows fails. *)
Lemma redirect_open_failed (direction : string) (target : Z)
    (path : option string) (out : string) (os : ChildOS) :
  path_in (match path with Some p => p | None => dev_null end) (paths_of os)
  = false ->
  redirect open_ direction target path out os
  = inl (String.append out (cannot_open path direction), os).
Proof.
  intros H. unfold redirect, open_, open_fd.
  destruct path as [p|]; rewrite H; reflexivity.
Qed.

(** After a successful open the [dup2] succeeds and nothing is
    printed. *)
Lemma redirect_open_ok (direction : string) (target : Z)
    (path : option string) (out : string) (os : ChildOS) :
  target <> -1 ->
  path_in (match path with Some p => p | None => dev_null end) (paths_of os)
  = true ->
  exists os', redirect open_ direction target path out os = inr (out, os')
              /\ same_paths os os'.
Proof.
  intros Ht H. unfold redirect, open_, open_fd.
  pose proof (lowest_free_nonneg (fdtable os)) as Hfd.
  destruct path as [p|]; rewrite H;
    (replace (lowest_free (fdtable os) =? -1) with false
       by (symmetry; apply Z.eqb_neq; lia));
    unfold dup2, fd_open; cbn [fdtable existsb];
    rewrite Z.eqb_refl, (proj2 (Z.leb_le _ _) Hfd); cbn [andb orb];
    (replace (target =? -1) with false by (symmetry; now apply Z.eqb_neq));
    eexists; (split; [reflexivity|]);
    destruct (_ && _); repeat split.
Qed.

End Redirect.

Section Child.

Variables (c : commandStruct) (os : ChildOS).

Let run : ChildRun := executeCommand_child c os.
Let input_ok : bool := target_ok (readable os) (redirect_target c (iRedirect c)).
Let output_ok : bool := target_ok (writable os) (redirect_target c (oRedirect c)).

Lemma input_stage :
  (if needs_redirect c (iRedirect c)
   then redirect open_rdonly "input" 0 (iRedirect c) EmptyString os
   else inr (EmptyString, os))
  = (if input_ok
     then inr (EmptyString, os) else inl (cannot_open (iRedirect c) "input", os))
  \/ input_ok = true /\ exists os',
       same_paths os os' /\
       (if needs_redirect c (iRedirect c)
        then redirect open_rdonly "input" 0 (iRedirect c) EmptyString os
        else inr (EmptyString, os)) = inr (EmptyString, os').
Proof.
  subst input_ok. unfold redirect_target, target_ok.
  destruct (needs_redirect c (iRedirect c)); [|now left].
  destruct (path_in _ (readable os)) eqn:E.
  - right. split; [reflexivity|].
    destruct (redirect_open_ok readable "input" 0 (iRedirect c) EmptyString os)
      as (os' & Hr & Hs); [lia | exact E |].
    exists os'. split; [exact Hs | exact Hr].
  - left. now apply (redirect_open_failed readable).
Qed.

(** The child reaches [execvp] exactly when every target it has to
    open can be opened; otherwise it has printed the diagnostic of the
    first target that cannot, and ends by [exit(1)] after the failed
    [dup2]. *)
Lemma child_run_cases :
  (input_ok = false /\
   child_stdout run = cannot_open (iRedirect c) "input" /\
   child_execvp run = false /\ child_end_ run = ChildExit 1)
  \/ (input_ok = true /\ output_ok = false /\
      child_stdout run = cannot_open (oRedirect c) "output" /\
      child_execvp run = false /\ child_end_ run = ChildExit 1)
  \/ (input_ok = true /\ output_ok = true /\
      child_stdout run = EmptyString /\ child_execvp run = true).
Proof.
  subst run. unfold executeCommand_child.
  assert (Hout : forall os', same_paths os os' ->
    (if needs_redirect c (oRedirect c)
     then redirect open_wronly "output" 1 (oRedirect c) EmptyString os'
     else inr (EmptyString, os'))
    = inl (cannot_open (oRedirect c) "output", os') /\ output_ok = false
    \/ output_ok = true /\ exists os'',
         (if needs_redirect c (oRedirect c)
          then redirect open_wronly "output" 1 (oRedirect c) EmptyString os'
          else inr (EmptyString, os')) = inr (EmptyString, os'')).
  { intros os' (_ & Hw & _). subst output_ok.
    unfold redirect_target, target_ok.
    destruct (needs_redirect c (oRedirect c)); [|right; eauto].
    rewrite <- Hw. destruct (path_in _ (writable os')) eqn:E.
    - right. split; [reflexivity|].
      destruct (redirect_open_ok writable "output" 1 (oRedirect c)
                  EmptyString os') as (os'' & Hr & _); [lia | exact E |].
      now exists os''.
    - left. split; [|reflexivity].
      now apply (redirect_open_failed writable). }
  assert (Hsame : same_paths os os) by (repeat split).
  destruct input_stage as [E|(Hi & os' & Hs & E)]; rewrite E.
  - destruct input_ok eqn:Hi.
    + destruct (Hout os Hsame) as [[E' Ho]|(Ho & os'' & E')]; rewrite E'.
      * right. left. repeat split; assumption.
      * right. right. repeat split; try assumption;
          now destruct (path_in (command c) (executable os'')).
    + left. repeat split.
  - destruct (Hout os' Hs) as [[E' Ho]|(Ho & os'' & E')]; rewrite E'.
    + right. left. repeat split; assumption.
    + right. right. repeat split; try assumption;
        now destruct (path_in (command c) (executable os'')).
Qed.

End Child.

Lemma target_ok_given (c : commandStruct) (paths : list string)
    (path : option string) (p : string) :
  path = Some p ->
  target_ok paths (redirect_target c path) = path_in p paths.
Proof.
  intros ->. unfold redirect_target, needs_redirect.
  now rewrite orb_true_r.
Qed.

(** C1, as the claim words it, fails: in the scenario of the
    specification the target of [ls > /no/such/dir/out.txt] cannot be
    opened, the diagnostic is printed, and the child exits with code 1
    without calling [execvp], although [ls] can be executed. *)
Lemma unopenable_target_ends_child :
  oRedirect ls_to_missing_dir = Some "/no/such/dir/out.txt"%string
  /\ path_in "/no/such/dir/out.txt" (writable plain_os) = false
  /\ path_in (command ls_to_missing_dir) (executable plain_os) = true
  /\ child_stdout (executeCommand_child ls_to_missing_dir plain_os)
     = String.append "cannot open /no/such/dir/out.txt for output" nl
  /\ child_execvp (executeCommand_child ls_to_missing_dir plain_os) = false
  /\ child_end_ (executeCommand_child ls_to_missing_dir plain_os) = ChildExit 1
  /\ ~ (forall c os p,
          oRedirect c = Some p -> path_in p (writable os) = false ->
          child_execvp (executeCommand_child c os) = true).
Proof.
  repeat split. intros H.
  specialize (H ls_to_missing_dir plain_os _ eq_refl eq_refl).
  discriminate H.
Qed.

(** C1, amended: when a target that the child has to open cannot be
    opened, the diagnostic naming it is printed on standard output and
    the child goes on to [dup2]; the duplication of the invalid
    descriptor fails, so the child exits with code 1 and does not
    attempt the command.  The command is attempted exactly when every
    target can be opened. *)
Theorem unopenable_target_is_reported_then_fatal (c : commandStruct)
    (os : ChildOS) :
  (forall p,
      iRedirect c = Some p -> path_in p (readable os) = false ->
      child_stdout (executeCommand_child c os)
      = cat ["cannot open "; p; " for input"; nl]%string
      /\ child_execvp (executeCommand_child c os) = false
      /\ child_end_ (executeCommand_child c os) = ChildExit 1)
  /\ (forall p,
        oRedirect c = Some p -> path_in p (writable os) = false ->
        target_ok (readable os) (redirect_target c (iRedirect c)) = true ->
        child_stdout (executeCommand_child c os)
        = cat ["cannot open "; p; " for output"; nl]%string
        /\ child_execvp (executeCommand_child c os) = false
        /\ child_end_ (executeCommand_child c os) = ChildExit 1)
  /\ child_execvp (executeCommand_child c os)
     = target_ok (readable os) (redirect_target c (iRedirect c))
       && target_ok (writable os) (redirect_target c (oRedirect c)).
Proof.
  pose proof (child_run_cases c os) as H. cbv zeta in H.
  split; [|split].
  - intros p Hp Hno.
    rewrite (target_ok_given c (readable os) _ p Hp), Hno in H.
    destruct H as [(_ & Hs & He & Hx)|[(Hi & _)|(Hi & _)]];
      [|discriminate Hi..].
    rewrite Hs, Hp. repeat split; assumption.
  - intros p Hp Hno Hin.
    rewrite (target_ok_given c (writable os) _ p Hp), Hno, Hin in H.
    destruct H as [(Hi & _)|[(_ & _ & Hs & He & Hx)|(_ & Ho & _)]];
      [discriminate Hi | | discriminate Ho].
    rewrite Hs, Hp. repeat split; assumption.
  - destruct H as [(Hi & _ & He & _)|[(Hi & Ho & _ & He & _)|(Hi & Ho & _ & He)]];
      rewrite He, Hi; try rewrite Ho; reflexivity.
Qed.

Lemma unopenable_target_is_reported_then_fatal_witness :
  oRedirect ls_to_missing_dir = Some "/no/such/dir/out.txt"%string
  /\ path_in "/no/such/dir/out.txt" (writable plain_os) = false
  /\ child_stdout (executeCommand_child ls_to_missing_dir plain_os)
     = cat ["cannot open "; "/no/such/dir/out.txt"; " for output"; nl]%string
  /\ child_execvp (executeCommand_child ls_to_missing_dir plain_os) = false
  /\ child_end_ (executeCommand_child ls_to_missing_dir plain_os) = ChildExit 1.
Proof.
  split; [reflexivity|]. split; [reflexivity|].
  destruct (unopenable_target_is_reported_then_fatal ls_to_missing_dir plain_os)
    as (_ & H & _).
  apply (H "/no/such/dir/out.txt"%string); reflexivity.
Defined.

(** ** Shell status *)

(** Nothing but the wait for a foreground child writes the status: the
    built-ins, a background launch and the reap pass keep it. *)
Lemma checkBackground_keeps_status (sh : Shell) :
  statusText (checkBackground sh) = statusText sh
  /\ statusCode (checkBackground sh) = statusCode sh.
Proof.
  unfold checkBackground, waitpid_any.
  destruct (zombies (kernel sh)) as [|[pid st] rest]; [now split|].
  destruct (0 <? pid); now split.
Qed.

Lemma dispatch_keeps_status (c : commandStruct) (env : ForkEnv)
    (sh sh' : Shell) :
  runs_foreground c = false ->
  dispatch c env sh = Running sh' ->
  statusText sh' = statusText sh /\ statusCode sh' = statusCode sh.
Proof.
  unfold runs_foreground, dispatch, executeCommand, executeCommand_parent,
    exitShell.
  destruct (negb (String.eqb (command c) " ") && negb (starts_with_hash (command c)));
    [|now intros _ [= <-]].
  destruct (String.eqb (command c) "exit").
  { intros _. now destruct (exitShell_loop _ _). }
  destruct (String.eqb (command c) "cd"); [now intros _ [= <-]|].
  destruct (String.eqb (command c) "status"); [now intros _ [= <-]|].
  destruct (background c); [|discriminate]. intros _.
  destruct (fork_ret env =? -1); [discriminate|].
  destruct (fork_ret env =? 0); [discriminate|].
  now intros [= <-].
Qed.

(** * Further properties *)

(** ** Variable expander, continued *)

Lemma expandVariable_fits_witness :
  sprintf_pidString 4567 = Ok "4567"%string
  /\ expandVariable 4567 "kill -15 $$" = Ok (spec_expand "4567" "kill -15 $$")
  /\ spec_expand "4567" "kill -15 $$" = "kill -15 4567"%string.
Proof.
  split; [reflexivity|].
  destruct (expandVariable_fits 4567 "kill -15 $$" "4567" eq_refl)
    as (_ & E & _).
  split; [exact E | reflexivity].
Defined.

(** The block that [malloc] returns for [result] has exactly the bytes
    that the second loop writes: the expanded text and its terminator.
    The size computed from the count of the first loop is never too
    small and never zero. *)
Theorem result_block_is_filled_exactly (pidString input : string) :
  result_size pidString input
  = Z.of_nat (String.length (replaceMarkers pidString input)) + 1
  /\ 1 <= result_size pidString input.
Proof.
  pose proof (replaceMarkers_fills_result pidString input) as H.
  split; lia.
Qed.

Section NoMarkerLeft.

Lemma string_of_uint_dollar_free (d : Decimal.uint) :
  dollar_free (NilEmpty.string_of_uint d) = true.
Proof. induction d; simpl; auto. Qed.

(** The text that [%d] prints has no marker character. *)
Lemma fmt_d_dollar_free (n : Z) : dollar_free (fmt_d n) = true.
Proof.
  unfold fmt_d, NilZero.string_of_int, NilZero.string_of_uint.
  destruct (Z.to_int n) as [d|d]; destruct d; simpl;
    auto using string_of_uint_dollar_free.
Qed.

Variable pidString : string.
Hypothesis pid_dollar_free : dollar_free pidString = true.

Lemma countMarkers_append_dollar_free (p rest : string) :
  dollar_free p = true ->
  countMarkers (String.append p rest) = countMarkers rest.
Proof.
  induction p as [|c p IH]; simpl String.append; [reflexivity|].
  cbn [dollar_free]. intros H. apply andb_prop in H as [Hc Hp].
  rewrite countMarkers_copy; [now apply IH|]. left.
  intros ->. unfold dollar in Hc. discriminate Hc.
Qed.

Lemma replaceMarkers_head (rest : string) :
  (forall rest', rest <> String dollar rest') ->
  forall out', replaceMarkers pidString rest <> String dollar out'.
Proof.
  intros H out'. destruct rest as [|c rest]; [discriminate|].
  destruct (Ascii.eqb_spec c dollar) as [->|Hc]; [now elim (H rest)|].
  rewrite replaceMarkers_copy by now left. intros [= E _]. contradiction.
Qed.

Lemma countMarkers_replaceMarkers (input : string) :
  countMarkers (replaceMarkers pidString input) = O.
Proof.
  induction input as [|rest IH|c rest Hc IH] using marker_scan_ind.
  - reflexivity.
  - rewrite replaceMarkers_marker.
    now rewrite countMarkers_append_dollar_free.
  - rewrite replaceMarkers_copy by exact Hc.
    rewrite countMarkers_copy; [exact IH|].
    destruct Hc as [Hc|Hc]; [now left | right].
    now apply replaceMarkers_head.
Qed.

End NoMarkerLeft.

(** The text that the expander returns has no marker left, so expanding
    it again gives the same text: a replacement is not scanned again and
    puts no marker together. *)
Theorem expanded_text_has_no_marker (pid : Z) (input out : string) :
  expandVariable pid input = Ok out ->
  ~ has_marker out /\ expandVariable pid out = Ok out.
Proof.
  unfold expandVariable, sprintf_pidString.
  destruct (_ <=? _)%nat; [|discriminate]. cbn. intros [= <-].
  assert (H : ~ has_marker (replaceMarkers (fmt_d pid) input)).
  { apply no_marker_counted, countMarkers_replaceMarkers, fmt_d_dollar_free. }
  split; [exact H|]. f_equal. now apply replaceMarkers_no_marker.
Qed.

Lemma expanded_text_has_no_marker_witness :
  expandVariable 4567 "echo $$$$$" = Ok "echo 45674567$"%string
  /\ ~ has_marker "echo 45674567$"
  /\ expandVariable 4567 "echo 45674567$" = Ok "echo 45674567$"%string.
Proof.
  split; [reflexivity|].
  apply (expanded_text_has_no_marker 4567 "echo $$$$$"). reflexivity.
Defined.

(** ** Line parser, continued *)

Section ParserShape.

Lemma tokens_nil_iff (s : string) : tokens s = [] <-> only_delims s.
Proof.
  unfold only_delims. rewrite tokens_strtok_r. unfold strtok_r.
  destruct (skip_delims s) as [|c rest]; [tauto|].
  destruct (take_token (String c rest)). split; discriminate.
Qed.

Lemma collect_args_spec (toks found remaining : list string) :
  collect_args toks = (found, remaining) ->
  toks = found ++ remaining
  /\ Forall (fun t => is_special t = false) found
  /\ (remaining = []
      \/ exists t rest, remaining = t :: rest /\ is_special t = true).
Proof.
  revert found remaining.
  induction toks as [|token rest IH]; intros found remaining; simpl.
  - intros [= <- <-]. repeat split; [constructor | now left].
  - destruct (is_special token) eqn:E.
    + intros [= <- <-]. repeat split; [constructor | right; eauto].
    + destruct (collect_args rest) as [f r]. intros [= <- <-].
      destruct (IH f r eq_refl) as (-> & Hf & Hr).
      repeat split; [now constructor | exact Hr].
Qed.

Lemma collect_args_app_special (found remaining : list string) :
  Forall (fun t => is_special t = false) found ->
  (remaining = []
   \/ exists t rest, remaining = t :: rest /\ is_special t = true) ->
  collect_args (found ++ remaining) = (found, remaining).
Proof.
  intros Hf Hr. induction Hf as [|t found Ht Hf IH]; simpl.
  - destruct Hr as [->|(t & rest & -> & Ht)]; simpl; [reflexivity|].
    now rewrite Ht.
  - now rewrite Ht, IH.
Qed.

Lemma scan_redirects_keeps_args (fg : bool) (toks : list string) :
  forall c c',
    scan_redirects fg toks c = Ok c' ->
    command c' = command c /\ args c' = args c.
Proof.
  induction toks as [|token|token path rest IH1 IH2] using scan_ind;
    intros c c'.
  - simpl. now intros [= <-].
  - simpl.
    destruct (String.eqb token "<"); [discriminate|].
    destruct (String.eqb token ">"); [discriminate|].
    destruct (_ && _); now intros [= <-].
  - cbn [scan_redirects].
    destruct (String.eqb token "<"); [intros H; now apply IH1 in H|].
    destruct (String.eqb token ">"); [intros H; now apply IH1 in H|].
    destruct (_ && _); intros H; now apply IH2 in H.
Qed.

(** With the foreground-only flag set the loop does what it does without
    it, but for the background flag, which stays false. *)
Lemma scan_redirects_fgOnly (toks : list string) :
  forall c,
    scan_redirects true toks (clear_background c)
    = (c' ← scan_redirects false toks c; Ok (clear_background c')).
Proof.
  induction toks as [|token|token path rest IH1 IH2] using scan_ind;
    intros c.
  - reflexivity.
  - simpl.
    destruct (String.eqb token "<"); [reflexivity|].
    destruct (String.eqb token ">"); [reflexivity|].
    now destruct (String.eqb token "&").
  - cbn [scan_redirects].
    destruct (String.eqb token "<"); [apply (IH1 (set_iRedirect c path))|].
    destruct (String.eqb token ">"); [apply (IH1 (set_oRedirect c path))|].
    destruct (String.eqb token "&"); cbn [andb negb];
      [apply (IH2 (set_background c)) | apply IH2].
Qed.

End ParserShape.

Lemma parseInput_blank (input : string) (fg : bool) :
  parseInput input fg = Ok None <-> only_delims input.
Proof.
  rewrite <- tokens_nil_iff. unfold parseInput.
  destruct (tokens input) as [|name rest]; [tauto|].
  destruct (collect_args rest) as [found remaining].
  destruct (_ <=? _)%nat; [split; discriminate|].
  destruct (scan_redirects fg remaining _); cbn; split; discriminate.
Qed.

(** [parseInput] returns the null pointer exactly for a line of spaces
    and newlines only (the empty line among them). *)
Theorem parseInput_null_iff_blank (input : string) (fg : bool) :
  parseInput input fg = Ok None <-> only_delims input.
Proof. apply parseInput_blank. Qed.

Lemma parseInput_shape (input : string) (fg : bool) (c : commandStruct) :
  parseInput input fg = Ok (Some c) ->
  exists found remaining,
    tokens input = command c :: found ++ remaining
    /\ args c = command c :: found
    /\ Forall (fun t => is_special t = false) found
    /\ (remaining = []
        \/ exists t rest, remaining = t :: rest /\ is_special t = true)
    /\ (length (args c) < args_size)%nat.
Proof.
  unfold parseInput. destruct (tokens input) as [|name rest]; [discriminate|].
  destruct (collect_args rest) as [found remaining] eqn:E.
  destruct (Nat.leb_spec args_size (1 + length found)) as [|Hlen];
    [discriminate|].
  destruct (scan_redirects fg remaining _) as [c0|f] eqn:S; [|discriminate].
  cbn. intros [= <-].
  apply scan_redirects_keeps_args in S as [Hc Ha]. cbn in Hc, Ha.
  apply collect_args_spec in E as (-> & Hf & Hr).
  exists found, remaining. rewrite Hc, Ha.
  split; [reflexivity|]. split; [reflexivity|]. split; [exact Hf|].
  split; [exact Hr | exact Hlen].
Qed.

(** The command of a parsed line is its first token, [args] starts with
    that token and goes on with the tokens before the first of [<], [>]
    and [&], and the vector with its terminator fits the 514 entries of
    [args]. *)
Theorem parseInput_command_and_args (input : string) (fg : bool)
    (c : commandStruct) :
  parseInput input fg = Ok (Some c) ->
  exists found remaining,
    tokens input = command c :: found ++ remaining
    /\ args c = command c :: found
    /\ Forall (fun t => is_special t = false) found
    /\ (remaining = []
        \/ exists t rest, remaining = t :: rest /\ is_special t = true)
    /\ (length (args c) < args_size)%nat.
Proof. apply parseInput_shape. Qed.

Lemma parseInput_command_and_args_witness :
  exists found remaining,
    tokens "wc -l < in.txt" = "wc"%string :: found ++ remaining
    /\ ["wc"; "-l"]%string = "wc"%string :: found
    /\ Forall (fun t => is_special t = false) found
    /\ (remaining = []
        \/ exists t rest, remaining = t :: rest /\ is_special t = true)
    /\ (length ["wc"; "-l"]%string < args_size)%nat.
Proof.
  apply (parseInput_command_and_args "wc -l < in.txt" false
           (mkCommand "wc" ["wc"; "-l"]%string (Some "in.txt"%string) None false)).
  reflexivity.
Defined.

(** A line in the documented syntax, [command args < input > output &],
    gives the command, its arguments, both paths, and a background flag
    that is true unless foreground-only mode is on. *)
Theorem parseInput_documented_syntax (input name ipath opath : string)
    (found : list string) (fg : bool) :
  tokens input = name :: found ++ ["<"; ipath; ">"; opath; "&"]%string ->
  Forall (fun t => is_special t = false) found ->
  (1 + length found < args_size)%nat ->
  parseInput input fg
  = Ok (Some (mkCommand name (name :: found) (Some ipath) (Some opath)
                        (negb fg))).
Proof.
  intros Ht Hf Hlen. unfold parseInput. rewrite Ht.
  rewrite collect_args_app_special; [|exact Hf | right; eauto].
  destruct (Nat.leb_spec args_size (1 + length found)); [lia|].
  now destruct fg.
Qed.

Lemma parseInput_documented_syntax_witness :
  parseInput "sort -r < in.txt > out.txt &" false
  = Ok (Some (mkCommand "sort" ["sort"; "-r"]%string (Some "in.txt"%string)
                        (Some "out.txt"%string) true)).
Proof.
  apply (parseInput_documented_syntax "sort -r < in.txt > out.txt &" "sort"
           "in.txt" "out.txt" ["-r"%string] false).
  - reflexivity.
  - repeat constructor.
  - unfold args_size. simpl. lia.
Defined.

(** A line that ends in [<] or [>] right after its arguments has no
    token to take as the path: [strlen] gets the null pointer that
    [strtok_r] returned. *)
Theorem parseInput_operator_without_path (input name op : string)
    (found : list string) (fg : bool) :
  tokens input = name :: found ++ [op] ->
  Forall (fun t => is_special t = false) found ->
  (1 + length found < args_size)%nat ->
  op = "<"%string \/ op = ">"%string ->
  parseInput input fg = Fault NullDeref.
Proof.
  intros Ht Hf Hlen Hop. unfold parseInput. rewrite Ht.
  rewrite collect_args_app_special;
    [|exact Hf | right; exists op, []; now destruct Hop as [->| ->]].
  destruct (Nat.leb_spec args_size (1 + length found)); [lia|].
  now destruct Hop as [->| ->].
Qed.

Lemma parseInput_operator_without_path_witness :
  parseInput "cat <" false = Fault NullDeref.
Proof.
  apply (parseInput_operator_without_path "cat <" "cat" "<" [] false).
  - reflexivity.
  - constructor.
  - unfold args_size. simpl. lia.
  - now left.
Defined.

(** A line with 513 or more arguments before the first of [<], [>] and
    [&] writes past the end of [args]. *)
Theorem parseInput_too_many_args (input name : string)
    (found remaining : list string) (fg : bool) :
  tokens input = name :: found ++ remaining ->
  Forall (fun t => is_special t = false) found ->
  (remaining = []
   \/ exists t rest, remaining = t :: rest /\ is_special t = true) ->
  (513 <= length found)%nat ->
  parseInput input fg = Fault BufferOverrun.
Proof.
  intros Ht Hf Hr Hlen. unfold parseInput. rewrite Ht.
  rewrite collect_args_app_special by assumption.
  destruct (Nat.leb_spec args_size (1 + length found)) as [|H];
    [reflexivity|]. unfold args_size in H. lia.
Qed.

Lemma parseInput_too_many_args_witness :
  parseInput (String.append "echo" (repeat_text 513 " a")) false
  = Fault BufferOverrun.
Proof.
  apply (parseInput_too_many_args _ "echo" (replicate 513 "a"%string) [] false).
  - vm_compute. reflexivity.
  - apply Forall_replicate. reflexivity.
  - now left.
  - rewrite length_replicate. lia.
Defined.

Lemma parseInput_fgOnly_eq (input : string) :
  parseInput input true
  = match parseInput input false with
    | Ok (Some c) => Ok (Some (clear_background c))
    | other => other
    end.
Proof.
  unfold parseInput. destruct (tokens input) as [|name rest]; [reflexivity|].
  destruct (collect_args rest) as [found remaining].
  destruct (_ <=? _)%nat; [reflexivity|].
  pose proof (scan_redirects_fgOnly remaining
                (mkCommand name (name :: found) None None false)) as H.
  change (clear_background (mkCommand name (name :: found) None None false))
    with (mkCommand name (name :: found) None None false) in H.
  rewrite H. now destruct (scan_redirects false remaining _).
Qed.

(** The foreground-only flag changes nothing of a parse but the
    background flag: with the flag set, the line gives the command it
    gives without it, in the foreground, and faults on the same lines. *)
Theorem parseInput_fgOnly_only_clears_background (input : string) :
  parseInput input true
  = match parseInput input false with
    | Ok (Some c) => Ok (Some (clear_background c))
    | other => other
    end.
Proof. apply parseInput_fgOnly_eq. Qed.

(** ** Job table, continued *)

Lemma checkBackground_reaps_witness :
  let sh := set_kernel (mkKernel [(4242, W_SIGNALED 15)] [])
              (set_bgPids table_with_gap main_init) in
  stdout (checkBackground sh)
  = String.append (stdout sh)
      (String.append "background pid 4242 is done: terminated by signal 15" nl)
  /\ zombies (kernel (checkBackground sh)) = []
  /\ bgPids (checkBackground sh) !! 1%nat = Some 0.
Proof.
  intros sh.
  destruct (checkBackground_reaps sh 4242 (W_SIGNALED 15) [] eq_refl)
    as (Hout & Hz & Hbg & _); [lia|].
  split; [exact Hout|]. split; [exact Hz|].
  rewrite Hbg. reflexivity.
Defined.

Section Slots.

Implicit Types (bg : list Z) (pid : Z) (n i j : nat).

Lemma addPid_loop_cases n : forall i bg pid,
  (exists k, (i <= k < i + n)%nat
             /\ bg !! k = Some 0
             /\ (forall j, (i <= j < k)%nat -> bg !! j <> Some 0)
             /\ addPid_loop n i bg pid = <[k := pid]> bg)
  \/ ((forall j, (i <= j < i + n)%nat -> bg !! j <> Some 0)
      /\ addPid_loop n i bg pid = bg).
Proof.
  induction n as [|n IH]; intros i bg pid.
  - right. split; [intros j Hj; lia | reflexivity].
  - cbn [addPid_loop]. destruct (decide (bg !! i = Some 0)) as [E|E].
    + left. exists i. repeat split; [lia.. | exact E | intros j Hj; lia].
    + destruct (IH (S i) bg pid) as [(k & Hk & Hz & Hf & Hr)|[Hf Hr]].
      * left. exists k. repeat split; [lia.. | exact Hz | | exact Hr].
        intros j Hj. destruct (decide (j = i)) as [->|]; [exact E|].
        apply Hf. lia.
      * right. split; [|exact Hr]. intros j Hj.
        destruct (decide (j = i)) as [->|]; [exact E|]. apply Hf. lia.
Qed.

Lemma removePid_loop_length n : forall i bg pid,
  length (removePid_loop n i bg pid) = length bg.
Proof.
  induction n as [|n IH]; intros i bg pid; cbn [removePid_loop];
    [reflexivity|].
  rewrite IH. case_decide; [apply length_insert | reflexivity].
Qed.

Lemma addPid_loop_length n i bg pid :
  length (addPid_loop n i bg pid) = length bg.
Proof.
  destruct (addPid_loop_cases n i bg pid) as [(k & _ & _ & _ & ->)|[_ ->]];
    [apply length_insert | reflexivity].
Qed.

(** Neither loop writes a slot outside its range. *)
Lemma addPid_loop_outside n i bg pid j :
  (j < i \/ i + n <= j)%nat -> addPid_loop n i bg pid !! j = bg !! j.
Proof.
  intros Hj.
  destruct (addPid_loop_cases n i bg pid) as [(k & Hk & _ & _ & ->)|[_ ->]];
    [|reflexivity].
  apply list_lookup_insert_ne. lia.
Qed.

Lemma removePid_loop_outside n i bg pid j :
  (j < i \/ i + n <= j)%nat -> removePid_loop n i bg pid !! j = bg !! j.
Proof.
  intros Hj. rewrite removePid_loop_lookup.
  apply decide_False. intros [H _]. lia.
Qed.

Lemma removePid_loop_unique n i bg pid :
  unique_pids bg -> unique_pids (removePid_loop n i bg pid).
Proof.
  intros H a b p. rewrite !removePid_loop_lookup.
  repeat case_decide; try (intros [= <-]; congruence);
    try (intros _ [= <-]; congruence).
  apply H.
Qed.

Lemma addPid_loop_unique n i bg pid :
  unique_pids bg ->
  (forall j, bg !! j <> Some pid) ->
  unique_pids (addPid_loop n i bg pid).
Proof.
  intros H Hfresh.
  destruct (addPid_loop_cases n i bg pid) as [(k & _ & Hz & _ & ->)|[_ ->]];
    [|exact H].
  intros a b p Ha Hb Hp.
  apply list_lookup_insert_Some in Ha as [(-> & <- & _)|[Hka Ha]];
    apply list_lookup_insert_Some in Hb as [(-> & Hb & _)|[Hkb Hb]].
  - reflexivity.
  - now elim (Hfresh b).
  - subst p. now elim (Hfresh a).
  - now apply (H a b p).
Qed.

(** Registering a process identifier that the live slots do not hold,
    and removing it again, gives the table back. *)
Lemma removePid_addPid bg pid :
  pid <> 0 ->
  (forall j, (j < live_slots)%nat -> bg !! j <> Some pid) ->
  removePid_loop live_slots 0 (addPid_loop live_slots 0 bg pid) pid = bg.
Proof.
  intros Hpid Hfresh.
  destruct (addPid_loop_cases live_slots 0 bg pid)
    as [(k & Hk & Hz & _ & ->)|[_ ->]].
  - apply list_eq. intros j. rewrite removePid_loop_lookup.
    destruct (decide (j = k)) as [->|Hjk].
    + rewrite list_lookup_insert_eq by now apply lookup_lt_Some with 0.
      rewrite decide_True; [now rewrite Hz | split; [lia | reflexivity]].
    + rewrite list_lookup_insert_ne by congruence.
      apply decide_False. intros [Hj E]. apply (Hfresh j); [lia | exact E].
  - apply removePid_loop_absent. intros j Hj. apply Hfresh. lia.
Qed.

Lemma exitShell_loop_prefix (killed : list Z) (p : Z) (rest : list Z) :
  Forall (fun q => 0 < q) killed ->
  p <= 0 ->
  forall k, exists k',
    exitShell_loop (killed ++ p :: rest) k = Ok k'
    /\ signals k' = signals k ++ map (fun q => (q, 9)) killed.
Proof.
  intros Hk Hp. induction Hk as [|q killed Hq Hk IH]; intros k; simpl.
  - replace (0 <? p) with false by (symmetry; apply Z.ltb_ge; lia).
    exists k. split; [reflexivity | now rewrite app_nil_r].
  - replace (0 <? q) with true by (symmetry; apply Z.ltb_lt; lia).
    destruct (IH (snd (waitpid_pid q (kill q 9 k)))) as (k' & E & Hs).
    exists k'. split; [exact E|].
    rewrite Hs, waitpid_pid_signals. simpl. now rewrite <- app_assoc.
Qed.

(** The loop of [exit] ends within the array as soon as some slot is
    not positive. *)
Lemma exitShell_loop_ends (slots : list Z) : forall j p k,
  slots !! j = Some p -> p <= 0 ->
  exists k', exitShell_loop slots k = Ok k'.
Proof.
  induction slots as [|q slots IH]; intros j p k Hj Hp; [discriminate Hj|].
  simpl. destruct (Z.ltb_spec 0 q) as [Hq|Hq]; [|eauto].
  destruct j as [|j]; [injection Hj as ->; lia|].
  now apply (IH j p).
Qed.

End Slots.

(** The registration of a background child and the reap pass that
    collects it undo each other: when the child's process identifier is
    not 0 and no live slot holds it, the table after the pass is the
    table before the launch. *)
Theorem register_then_reap_restores_table (c : commandStruct) (childPid : Z)
    (st st' : wstatus) (sh : Shell) :
  background c = true ->
  0 < childPid ->
  (forall j, (j < 20)%nat -> bgPids sh !! j <> Some childPid) ->
  zombies (kernel sh) = [] ->
  let launched := executeCommand_parent c childPid st sh in
  let ended :=
    set_kernel (child_terminates childPid st' (kernel launched)) launched in
  bgPids (checkBackground ended) = bgPids sh
  /\ zombies (kernel (checkBackground ended)) = [].
Proof.
  intros Hb Hpos Hfresh Hz launched ended.
  subst ended launched. unfold executeCommand_parent. rewrite Hb.
  destruct sh as [bg text code fg out [zs sent]].
  cbn [kernel zombies] in Hz. subst zs. cbn [bgPids] in Hfresh.
  unfold checkBackground.
  cbn -[removePid_loop addPid_loop live_slots Z.ltb].
  replace (0 <? childPid) with true by (symmetry; now apply Z.ltb_lt).
  cbn -[removePid_loop addPid_loop live_slots].
  split; [|reflexivity].
  apply removePid_addPid; [lia | exact Hfresh].
Qed.

Lemma register_then_reap_restores_table_witness :
  let launched := executeCommand_parent sleep_bg 4242 W_OTHER main_init in
  let ended :=
    set_kernel (child_terminates 4242 (W_EXITED 0) (kernel launched)) launched in
  bgPids launched !! 0%nat = Some 4242
  /\ bgPids (checkBackground ended) = bgPids main_init.
Proof.
  intros launched ended. split; [reflexivity|].
  apply (register_then_reap_restores_table sleep_bg 4242 W_OTHER (W_EXITED 0)
           main_init); [reflexivity | lia | | reflexivity].
  intros j Hj. unfold main_init. cbn [bgPids].
  intros H. apply lookup_replicate_1 in H as [H _]. discriminate H.
Defined.

(** The table never comes to hold a process identifier twice as long as
    [fork] returns identifiers that the table does not hold: the
    registration of such an identifier and every reap pass keep the
    entries other than 0 distinct. *)
Theorem table_entries_stay_distinct (c : commandStruct) (childPid : Z)
    (st : wstatus) (sh : Shell) :
  unique_pids (bgPids sh) ->
  unique_pids (bgPids (checkBackground sh))
  /\ ((forall j, bgPids sh !! j <> Some childPid) ->
      unique_pids (bgPids (executeCommand_parent c childPid st sh))).
Proof.
  intros H. split.
  - unfold checkBackground, waitpid_any.
    destruct (zombies (kernel sh)) as [|[pid st0] rest]; [exact H|].
    destruct (0 <? pid); [|exact H].
    unfold set_bgPids, printf, set_kernel. cbn [bgPids].
    now apply removePid_loop_unique.
  - intros Hfresh. unfold executeCommand_parent.
    destruct (background c).
    + unfold set_bgPids, printf, set_kernel. cbn [bgPids].
      now apply addPid_loop_unique.
    + now destruct st.
Qed.

Lemma table_entries_stay_distinct_witness :
  let sh := set_kernel (mkKernel [(4241, W_EXITED 0)] [])
              (set_bgPids two_jobs main_init) in
  unique_pids (bgPids sh)
  /\ bgPids (checkBackground sh) = 0 :: 0 :: 4243 :: replicate 253 0
  /\ unique_pids (bgPids (checkBackground sh))
  /\ bgPids (executeCommand_parent sleep_bg 4244 W_OTHER sh)
     = 4241 :: 4244 :: 4243 :: replicate 253 0
  /\ unique_pids (bgPids (executeCommand_parent sleep_bg 4244 W_OTHER sh)).
Proof.
  intros sh.
  assert (Hrest : forall i p, replicate 253 0 !! i = Some p -> p = 0).
  { intros i p H. now apply lookup_replicate_1 in H as [-> _]. }
  assert (H : unique_pids (bgPids sh)).
  { intros i j p Hi Hj Hp. subst sh.
    cbn [bgPids set_bgPids set_kernel] in Hi, Hj. unfold two_jobs in Hi, Hj.
    destruct i as [|[|[|i]]]; cbn in Hi;
      destruct j as [|[|[|j]]]; cbn in Hj;
      try reflexivity; try congruence;
      try (apply Hrest in Hi; contradiction);
      try (apply Hrest in Hj; contradiction). }
  destruct (table_entries_stay_distinct sleep_bg 4244 W_OTHER sh H)
    as [Hreap Hreg].
  split; [exact H|]. split; [reflexivity|]. split; [exact Hreap|].
  split; [reflexivity|]. apply Hreg.
  intros j Hj. subst sh.
  cbn [bgPids set_bgPids set_kernel] in Hj. unfold two_jobs in Hj.
  destruct j as [|[|[|j]]]; cbn in Hj; try congruence.
  apply Hrest in Hj. discriminate Hj.
Defined.

(** [exit] signals with 9 the slots before the first slot that is not
    positive, in their order, and no other; it then ends the shell with
    code 0 and leaves the table and the printed text as they are. *)
Theorem exitShell_signals_leading_positive (sh : Shell) (killed : list Z)
    (p : Z) (rest : list Z) :
  bgPids sh = killed ++ p :: rest ->
  Forall (fun q => 0 < q) killed ->
  p <= 0 ->
  exists sh',
    exitShell sh = Exited 0 sh'
    /\ signals (kernel sh')
       = signals (kernel sh) ++ map (fun q => (q, 9)) killed
    /\ bgPids sh' = bgPids sh
    /\ stdout sh' = stdout sh.
Proof.
  intros Hbg Hk Hp. unfold exitShell.
  destruct (exitShell_loop_prefix killed p rest Hk Hp (kernel sh))
    as (k' & E & Hs).
  rewrite <- Hbg in E. rewrite E. eexists. split; [reflexivity|].
  split; [exact Hs|]. split; reflexivity.
Qed.

Lemma exitShell_signals_leading_positive_witness :
  exists sh',
    exitShell (set_bgPids [4241; 4242; 0; 4243] main_init) = Exited 0 sh'
    /\ signals (kernel sh') = [(4241, 9); (4242, 9)].
Proof.
  destruct (exitShell_signals_leading_positive
              (set_bgPids [4241; 4242; 0; 4243] main_init)
              [4241; 4242] 0 [4243])
    as (sh' & E & Hs & _); [reflexivity | repeat constructor; lia | lia |].
  exists sh'. split; [exact E | exact Hs].
Defined.

(** A terminated child whose process identifier no live slot holds, as
    that of a background child launched while the 20 slots were taken,
    is reported by the reap pass all the same, and the table stays as it
    is. *)
Theorem untracked_child_is_reported (sh : Shell) (pid : Z) (st : wstatus)
    (rest : list (Z * wstatus)) :
  zombies (kernel sh) = (pid, st) :: rest ->
  0 < pid ->
  (forall j, (j < 20)%nat -> bgPids sh !! j <> Some pid) ->
  stdout (checkBackground sh)
  = String.append (stdout sh) (cat (report_done pid st))
  /\ bgPids (checkBackground sh) = bgPids sh.
Proof.
  intros Hz Hpos Hfree. unfold checkBackground, waitpid_any. rewrite Hz.
  replace (0 <? pid) with true by (symmetry; now apply Z.ltb_lt).
  unfold set_bgPids, printf, set_kernel. cbn [stdout bgPids].
  split; [reflexivity|].
  apply removePid_loop_absent. intros j Hj. apply Hfree.
  unfold live_slots in Hj. lia.
Qed.

Lemma untracked_child_is_reported_witness :
  let full := replicate 20 7 ++ replicate 236 0 in
  let sh := set_kernel (mkKernel [(4242, W_EXITED 0)] [])
              (set_bgPids full main_init) in
  stdout (checkBackground sh)
  = String.append (stdout sh)
      (String.append "background pid 4242 is done: exit value 0" nl)
  /\ bgPids (checkBackground sh) = full.
Proof.
  intros full sh.
  apply (untracked_child_is_reported sh 4242 (W_EXITED 0) []);
    [reflexivity | lia |].
  intros j Hj. subst sh full. cbn [bgPids set_bgPids set_kernel].
  rewrite lookup_app_l by (rewrite length_replicate; lia).
  intros H. apply lookup_replicate_1 in H as [H _]. discriminate H.
Defined.

(** ** The prompt loop *)

Section Loop.

(** What holds of the shell before an iteration and is kept by the
    prompt, by the launcher and by the reap pass holds after the
    iteration, when the iteration returns. *)
Lemma loop_body_preserves (P : Shell -> Prop) :
  (forall text sh, P sh -> P (printf text sh)) ->
  (forall sh, P sh -> P (checkBackground sh)) ->
  (forall c pid st sh, P sh -> P (executeCommand_parent c pid st sh)) ->
  forall pid line env sh sh',
    P sh -> loop_body pid line env sh = Running sh' -> P sh'.
Proof.
  intros Hprintf Hreap Hlaunch pid line env sh sh' HP.
  unfold loop_body.
  destruct (expandVariable pid line) as [e|f]; [|discriminate].
  destruct (parseInput e _) as [[c|]|f]; [| |discriminate].
  - unfold dispatch, executeCommand, exitShell.
    destruct (_ && _).
    + destruct (String.eqb (command c) "exit").
      { now destruct (exitShell_loop _ _). }
      destruct (String.eqb (command c) "cd").
      { intros [= <-]. auto. }
      destruct (String.eqb (command c) "status").
      { intros [= <-]. auto. }
      destruct (fork_ret env =? -1); [discriminate|].
      destruct (fork_ret env =? 0); [discriminate|].
      intros [= <-]. auto.
    + intros [= <-]. auto.
  - intros [= <-]. auto.
Qed.

Lemma table_ok_checkBackground (sh : Shell) :
  table_ok sh -> table_ok (checkBackground sh).
Proof.
  intros [Hlen Hz]. unfold checkBackground, waitpid_any.
  destruct (zombies (kernel sh)) as [|[pid st] rest]; [now split|].
  destruct (0 <? pid); [|now split].
  unfold table_ok, set_bgPids, printf, set_kernel. cbn [bgPids]. split.
  - now rewrite removePid_loop_length.
  - intros j Hj. rewrite removePid_loop_outside by lia. now apply Hz.
Qed.

Lemma table_ok_executeCommand_parent (c : commandStruct) (pid : Z)
    (st : wstatus) (sh : Shell) :
  table_ok sh -> table_ok (executeCommand_parent c pid st sh).
Proof.
  intros [Hlen Hz]. unfold executeCommand_parent.
  destruct (background c); [|destruct st; now split].
  unfold table_ok, set_bgPids, printf, set_kernel. cbn [bgPids]. split.
  - now rewrite addPid_loop_length.
  - intros j Hj. rewrite addPid_loop_outside by lia. now apply Hz.
Qed.

Lemma status_ok_checkBackground (sh : Shell) :
  status_ok sh -> status_ok (checkBackground sh).
Proof.
  unfold status_ok. destruct (checkBackground_keeps_status sh) as [-> ->].
  tauto.
Qed.

Lemma status_ok_executeCommand_parent (c : commandStruct) (pid : Z)
    (st : wstatus) (sh : Shell) :
  status_ok sh -> status_ok (executeCommand_parent c pid st sh).
Proof.
  intros H. unfold executeCommand_parent.
  destruct (background c); [exact H|].
  destruct st; [now left | right; now split | exact H].
Qed.

Lemma reachable_inv (sh : Shell) :
  reachable sh -> table_ok sh /\ status_ok sh.
Proof.
  induction 1 as [|pid line env sh sh' _ IH Hstep|sh _ IH|pid st sh _ IH].
  - split; [|now left]. split; [reflexivity|].
    intros j Hj. apply lookup_replicate_2. lia.
  - revert Hstep.
    apply (loop_body_preserves (fun s => table_ok s /\ status_ok s));
      [| | |exact IH].
    + now intros text s.
    + intros s [Ht Hs].
      split; [now apply table_ok_checkBackground
             | now apply status_ok_checkBackground].
    + intros c p st s [Ht Hs].
      split; [now apply table_ok_executeCommand_parent
             | now apply status_ok_executeCommand_parent].
  - unfold handle_SIGTSTP. now destruct (fgOnly sh).
  - exact IH.
Qed.

End Loop.

(** In every state that the shell reaches the table has its 256 entries
    with 0 in all of them past the 20 live slots, and the status is
    [exit value] with a code or [terminated by signal] with 2; so the
    loop of [exit], which has no bound of its own, always ends inside the
    array, and the shell exits with code 0. *)
Theorem reachable_shell_invariant (sh : Shell) :
  reachable sh ->
  table_ok sh
  /\ status_ok sh
  /\ exists sh', exitShell sh = Exited 0 sh'.
Proof.
  intros H. destruct (reachable_inv sh H) as [[Hlen Hz] Hs].
  split; [now split|]. split; [exact Hs|].
  destruct (exitShell_loop_ends (bgPids sh) live_slots 0 (kernel sh))
    as [k' E]; [apply Hz; unfold live_slots, bgPids_size; lia | lia |].
  unfold exitShell. rewrite E. eauto.
Qed.

Lemma reachable_shell_invariant_witness :
  let sh := checkBackground
              (executeCommand_parent sleep_bg 4242 W_OTHER
                 (printf [": "]%string main_init)) in
  reachable sh
  /\ bgPids sh !! 0%nat = Some 4242
  /\ exists sh', exitShell sh = Exited 0 sh'.
Proof.
  intros sh.
  assert (H : reachable sh).
  { apply (reach_iteration 4567 sleep_line fork_4242 main_init);
      [exact reach_init | reflexivity]. }
  split; [exact H|]. split; [reflexivity|].
  destruct (reachable_shell_invariant sh H) as (_ & _ & E). exact E.
Defined.

(** An iteration that runs no foreground child, be its line blank, a
    comment, a built-in or a background command, leaves the status as it
    was, whatever the reap pass reports. *)
Theorem status_changes_with_foreground_only (pid : Z) (line : string)
    (env : ForkEnv) (sh sh' : Shell) :
  loop_body pid line env sh = Running sh' ->
  (forall e c,
      expandVariable pid line = Ok e ->
      parseInput e (fgOnly sh) = Ok (Some c) ->
      runs_foreground c = false) ->
  statusText sh' = statusText sh /\ statusCode sh' = statusCode sh.
Proof.
  unfold loop_body. intros H Hfg.
  destruct (expandVariable pid line) as [e|f]; [|discriminate].
  change (fgOnly (printf [": "%string] sh)) with (fgOnly sh) in H.
  destruct (parseInput e (fgOnly sh)) as [[c|]|f] eqn:E; [| |discriminate].
  - specialize (Hfg e c eq_refl E).
    destruct (dispatch c env _) as [sh1| | |] eqn:D; try discriminate.
    injection H as <-.
    destruct (dispatch_keeps_status _ _ _ _ Hfg D) as [Ht Hc].
    destruct (checkBackground_keeps_status sh1) as [-> ->].
    now rewrite Ht, Hc.
  - injection H as <-.
    now destruct (checkBackground_keeps_status (printf [": "%string] sh))
      as [-> ->].
Qed.

Lemma status_changes_with_foreground_only_witness :
  let sh := set_status "terminated by signal" 2 main_init in
  exists sh',
    loop_body 4567 sleep_line fork_4242 sh = Running sh'
    /\ statusText sh' = "terminated by signal"%string
    /\ statusCode sh' = 2.
Proof.
  intros sh. eexists. split; [reflexivity|].
  apply (status_changes_with_foreground_only 4567 sleep_line fork_4242 sh);
    [reflexivity|].
  intros e c [= <-] [= <-]. reflexivity.
Defined.

(** The toggle signal and the parser together: after the signal has been
    handled in unrestricted mode every line is parsed as a foreground
    command, and after it has been handled once more the line is parsed
    as before; besides the flag the handler changes the printed text
    only. *)
Theorem toggle_signal_forces_foreground (sh : Shell) (input : string) :
  fgOnly sh = false ->
  parseInput input (fgOnly (handle_SIGTSTP sh))
  = match parseInput input false with
    | Ok (Some c) => Ok (Some (clear_background c))
    | other => other
    end
  /\ parseInput input (fgOnly (handle_SIGTSTP (handle_SIGTSTP sh)))
     = parseInput input false
  /\ bgPids (handle_SIGTSTP sh) = bgPids sh
  /\ statusText (handle_SIGTSTP sh) = statusText sh
  /\ statusCode (handle_SIGTSTP sh) = statusCode sh
  /\ kernel (handle_SIGTSTP sh) = kernel sh.
Proof.
  intros H. unfold handle_SIGTSTP. rewrite H. cbn [fgOnly set_fgOnly printf].
  split; [apply parseInput_fgOnly_eq|]. repeat split.
Qed.

Lemma toggle_signal_forces_foreground_witness :
  parseInput sleep_line (fgOnly (handle_SIGTSTP main_init))
  = Ok (Some sleep_fg)
  /\ parseInput sleep_line (fgOnly (handle_SIGTSTP (handle_SIGTSTP main_init)))
     = Ok (Some sleep_bg).
Proof.
  destruct (toggle_signal_forces_foreground main_init sleep_line eq_refl)
    as (H1 & H2 & _).
  split; [exact H1 | exact H2].
Defined.

(** ** Reading a line *)

Section Lines.


End Lines.


Section Skipped.

Lemma tokens_from_delim_free (s : string) : forall cur t,
  delim_free cur = true ->
  In t (tokens_from cur s) -> t <> EmptyString /\ delim_free t = true.
Proof.
  induction s as [|c s IH]; intros cur t Hcur; simpl.
  - destruct cur; [intros []|]. intros [<-|[]]. now split.
  - destruct (is_delim c) eqn:E.
    + destruct cur.
      * now apply IH.
      * intros [<-|H]; [now split | now apply (IH EmptyString)].
    + apply IH. clear IH. induction cur as [|c' cur IHc]; simpl.
      * now rewrite E.
      * simpl in Hcur. apply andb_prop in Hcur as [H1 H2].
        now rewrite H1, IHc.
Qed.

Lemma parseInput_tokens_delim_free (input : string) (fg : bool)
    (c : commandStruct) :
  parseInput input fg = Ok (Some c) ->
  Forall (fun a => a <> EmptyString /\ delim_free a = true) (args c).
Proof.
  intros H.
  destruct (parseInput_shape input fg c H) as (found & remaining & Ht & Ha & _).
  apply List.Forall_forall. intros a Hin.
  apply (tokens_from_delim_free input EmptyString); [reflexivity|].
  fold (tokens input). rewrite Ht, app_comm_cons, <- Ha.
  apply in_or_app. now left.
Qed.

End Skipped.

(** The command name and the arguments of a parsed line are not empty
    and hold no space and no newline; so the test of [main] that
    compares the command with the text of one space never fails, and
    only the test for a leading [#] skips a parsed line. *)
Theorem parsed_words_are_proper (input : string) (fg : bool)
    (c : commandStruct) :
  parseInput input fg = Ok (Some c) ->
  Forall (fun a => a <> EmptyString /\ delim_free a = true) (args c)
  /\ command c <> EmptyString
  /\ String.eqb (command c) " " = false.
Proof.
  intros H. pose proof (parseInput_tokens_delim_free input fg c H) as Hall.
  split; [exact Hall|].
  destruct (parseInput_shape input fg c H) as (found & _ & _ & Ha & _).
  rewrite Ha in Hall. apply Forall_inv in Hall as [Hne Hdf].
  split; [exact Hne|].
  destruct (String.eqb_spec (command c) " ") as [E|]; [|reflexivity].
  rewrite E in Hdf. discriminate Hdf.
Qed.

Lemma parsed_words_are_proper_witness :
  Forall (fun a => a <> EmptyString /\ delim_free a = true)
         ["sleep"; "5"]%string
  /\ "sleep"%string <> EmptyString
  /\ String.eqb "sleep" " " = false.
Proof.
  apply (parsed_words_are_proper sleep_line false sleep_bg). reflexivity.
Defined.

(** When the expander returns the line and the line holds spaces and
    newlines only, the iteration consists of the prompt and the reap
    pass: [parseInput] returns the null pointer, nothing is routed or
    launched, and [clearStruct] is not called. *)
Theorem blank_line_is_skipped (pid : Z) (line e : string) (env : ForkEnv)
    (sh : Shell) :
  expandVariable pid line = Ok e ->
  only_delims e ->
  loop_body pid line env sh = Running (checkBackground (printf [": "]%string sh)).
Proof.
  intros He H. unfold loop_body. rewrite He.
  apply (parseInput_blank e (fgOnly (printf [": "%string] sh))) in H.
  now rewrite H.
Qed.

Lemma blank_line_is_skipped_witness :
  let sh := set_kernel (mkKernel [(4241, W_EXITED 0)] [])
              (set_bgPids two_jobs main_init) in
  expandVariable 4567 (String.append "   " nl) = Ok (String.append "   " nl)
  /\ only_delims (String.append "   " nl)
  /\ loop_body 4567 (String.append "   " nl) fork_4242 sh
     = Running (checkBackground (printf [": "]%string sh))
  /\ bgPids (checkBackground (printf [": "]%string sh))
     = 0 :: 0 :: 4243 :: replicate 253 0.
Proof.
  intros sh. split; [reflexivity|]. split; [reflexivity|].
  split; [|reflexivity].
  apply (blank_line_is_skipped 4567 (String.append "   " nl)
           (String.append "   " nl)); reflexivity.
Defined.

(** At the end of the input [fgets] stores nothing and the line is
    empty: when the text of the process identifier fits [pidString], the
    iteration prints the prompt, runs the reap pass and returns with the
    input still at its end, so the loop of [main] does not end there. *)
Theorem end_of_input_keeps_prompting (pid : Z) (pidString : string)
    (env : ForkEnv) (sh : Shell) :
  sprintf_pidString pid = Ok pidString ->
  main_iteration pid env EmptyString sh
  = (Running (checkBackground (printf [": "]%string sh)), EmptyString).
Proof.
  intros H. unfold main_iteration, getInput, loop_body, expandVariable.
  cbn [snd fgets Nat.sub]. rewrite H. reflexivity.
Qed.

Lemma end_of_input_keeps_prompting_witness :
  main_iteration 4567 fork_4242 EmptyString main_init
  = (Running (printf [": "]%string main_init), EmptyString).
Proof.
  apply (end_of_input_keeps_prompting 4567 "4567"). reflexivity.
Defined.

(** ** Launcher, child side, continued *)

Section ChildShape.

Variables (c : commandStruct) (os : ChildOS).

Let int : sighandler := if background c then SIG_IGN else SIG_DFL.

(** The three ways the child ends: by [exit(1)] after a failed [dup2],
    before [execvp] and without [perror]; with its image replaced; or by
    [exit(1)] after [perror] has named the command that [execvp] could
    not run. *)
Lemma child_run_shape :
  (exists out os',
      executeCommand_child c os
      = mkChildRun out None false int SIG_IGN os' (ChildExit 1))
  \/ (exists os',
        same_paths os os'
        /\ executeCommand_child c os
           = if path_in (command c) (executable os)
             then mkChildRun EmptyString None true int SIG_IGN os'
                    (ChildImage (command c) (args c))
             else mkChildRun EmptyString (Some (command c)) true int SIG_IGN
                    os' (ChildExit 1)).
Proof.
  subst int. unfold executeCommand_child.
  assert (Hin :
    (exists out os',
        (if needs_redirect c (iRedirect c)
         then redirect open_rdonly "input" 0 (iRedirect c) EmptyString os
         else inr (EmptyString, os)) = inl (out, os'))
    \/ (exists os',
          same_paths os os'
          /\ (if needs_redirect c (iRedirect c)
              then redirect open_rdonly "input" 0 (iRedirect c) EmptyString os
              else inr (EmptyString, os)) = inr (EmptyString, os'))).
  { destruct (needs_redirect c (iRedirect c));
      [|right; exists os; now repeat split].
    destruct (path_in (match iRedirect c with Some p => p | None => dev_null end)
                (readable os)) eqn:E.
    - right.
      destruct (redirect_open_ok readable "input" 0 (iRedirect c) EmptyString os)
        as (os' & Hr & Hs); [lia | exact E |]. eauto.
    - left. do 2 eexists. now apply (redirect_open_failed readable). }
  destruct Hin as [(out & os' & E)|(os' & Hs & E)]; rewrite E; [left; eauto|].
  assert (Hout :
    (exists out os'',
        (if needs_redirect c (oRedirect c)
         then redirect open_wronly "output" 1 (oRedirect c) EmptyString os'
         else inr (EmptyString, os')) = inl (out, os''))
    \/ (exists os'',
          same_paths os' os''
          /\ (if needs_redirect c (oRedirect c)
              then redirect open_wronly "output" 1 (oRedirect c) EmptyString os'
              else inr (EmptyString, os')) = inr (EmptyString, os''))).
  { destruct (needs_redirect c (oRedirect c));
      [|right; exists os'; now repeat split].
    destruct (path_in (match oRedirect c with Some p => p | None => dev_null end)
                (writable os')) eqn:E'.
    - right.
      destruct (redirect_open_ok writable "output" 1 (oRedirect c) EmptyString os')
        as (os'' & Hr & Hs'); [lia | exact E' |]. eauto.
    - left. do 2 eexists. now apply (redirect_open_failed writable). }
  destruct Hout as [(out & os'' & E')|(os'' & Hs' & E')]; rewrite E';
    [left; eauto|].
  right. exists os''.
  destruct Hs as (Hr1 & Hw1 & Hx1), Hs' as (Hr2 & Hw2 & Hx2).
  split; [repeat split; congruence|].
  now rewrite Hx2, Hx1.
Qed.

End ChildShape.

(** What becomes of the command in the child: when [execvp] succeeds the
    new image is the command with the arguments of the line, and the
    child has printed nothing; whenever the child exits on its own the
    code is 1; and when [execvp] fails, [perror] has been given the name
    of the command. *)
Theorem child_command_outcome (c : commandStruct) (os : ChildOS) :
  (forall file argv,
      child_end_ (executeCommand_child c os) = ChildImage file argv ->
      file = command c /\ argv = args c
      /\ path_in (command c) (executable os) = true
      /\ child_stdout (executeCommand_child c os) = EmptyString
      /\ child_perror (executeCommand_child c os) = None)
  /\ (forall code,
        child_end_ (executeCommand_child c os) = ChildExit code -> code = 1)
  /\ (child_execvp (executeCommand_child c os) = true ->
      path_in (command c) (executable os) = false ->
      child_perror (executeCommand_child c os) = Some (command c)
      /\ child_end_ (executeCommand_child c os) = ChildExit 1)
  /\ (child_execvp (executeCommand_child c os) = false ->
      child_perror (executeCommand_child c os) = None).
Proof.
  destruct (child_run_shape c os) as [(out & os' & ->)|(os' & _ & ->)].
  - cbn. repeat split; try discriminate. now intros code [= <-].
  - destruct (path_in (command c) (executable os)); cbn;
      repeat split; try discriminate; try congruence.
Qed.

Lemma child_command_outcome_witness :
  child_perror (executeCommand_child nosuchcmd_bg plain_os)
  = Some "nosuchcmd"%string
  /\ child_end_ (executeCommand_child nosuchcmd_bg plain_os) = ChildExit 1.
Proof.
  destruct (child_command_outcome nosuchcmd_bg plain_os) as (_ & _ & H & _).
  apply H; reflexivity.
Defined.
